(** * A Bayesian feed-forward network with variational layers

    Shallow embedding of [src/models/BnnModel.py]: the classes [BnnLayer]
    and [BayesianModel], together with the part of the tensor library
    (torch) they call.

    Modelling choices.
    - Scalars are exact real numbers ([R]); rounding, overflow and
      underflow of machine floats are not modelled.
    - A tensor is a shape and its elements in row-major order.
    - The process-wide random generator is an explicit state threaded
      through every operation that draws from it.
    - A Python exception is a value of type [error]; an operation that can
      raise returns [error + A]. *)

From Stdlib Require Import List ZArith Reals Lra Lia Bool Arith PeanoNat.
Import ListNotations.

Open Scope R_scope.

(** ** Exceptions and the random source *)

(** The exception classes the modelled operations raise. *)
Inductive error : Type :=
| RuntimeError   (* torch: negative dimension, shapes that cannot be multiplied,
                    stacking an empty list *)
| ValueError    (* torch.distributions argument and sample validation;
                    fan computation on a tensor of fewer than 2 dimensions *)
| TypeError     (* len() of a 0-d tensor *)
| IndexError.   (* reduction over a dimension that does not exist *)

Definition result (A : Type) : Type := (error + A)%type.

Definition is_ok {A} (r : result A) : bool :=
  match r with inr _ => true | inl _ => false end.

(** A generator state is characterised by the sequence of standard-normal
    draws it is going to produce: [noise] is that sequence and [cursor]
    the number of draws consumed so far. *)
Record rng_state : Type := mkRng { noise : nat -> R; cursor : nat }.

Definition advance (g : rng_state) (n : nat) : rng_state :=
  mkRng (noise g) (cursor g + n).

(** Computations that may raise and that read and advance the generator.
    The generator state survives an exception, as the global one does. *)
Definition M (A : Type) : Type := rng_state -> result A * rng_state.

Definition ret {A} (a : A) : M A := fun g => (inr a, g).

Definition bind {A B} (m : M A) (k : A -> M B) : M B :=
  fun g => match m g with
           | (inr a, g') => k a g'
           | (inl e, g') => (inl e, g')
           end.

Definition lift {A} (r : result A) : M A := fun g => (r, g).

Definition rbind {A B} (r : result A) (k : A -> result B) : result B :=
  match r with inr a => k a | inl e => inl e end.

Declare Scope monad_scope.
Delimit Scope monad_scope with monad.
Notation "x <- m ;; k" := (bind m (fun x => k))
  (at level 61, m at next level, right associativity) : monad_scope.
Notation "x <~ r ;; k" := (rbind r (fun x => k))
  (at level 61, r at next level, right associativity) : monad_scope.
Open Scope monad_scope.

(** ** Tensors *)

Record tensor : Type := mkTensor { shape : list nat; data : list R }.

Definition numel (s : list nat) : nat := fold_right Nat.mul 1%nat s.

(** The representation invariant of a tensor. *)
Definition wf_tensor (t : tensor) : Prop := length (data t) = numel (shape t).

Definition Rsum (l : list R) : R := fold_right Rplus 0 l.

(** [t.sum()], a 0-d tensor, read as its only element. *)
Definition tsum (t : tensor) : R := Rsum (data t).

Definition tmap (f : R -> R) (t : tensor) : tensor :=
  mkTensor (shape t) (map f (data t)).

(** [nn.init.constant_] and [nn.init.zeros_] *)
Definition constant_ (t : tensor) (v : R) : tensor := tmap (fun _ => v) t.
Definition zeros_ (t : tensor) : tensor := constant_ t 0.

(** [torch.zeros_like], [torch.exp], [F.relu] *)
Definition zeros_like (t : tensor) : tensor := tmap (fun _ => 0) t.
Definition texp (t : tensor) : tensor := tmap exp t.
Definition relu (t : tensor) : tensor := tmap (Rmax 0) t.

(** *** Broadcasting *)

(** Multi-index of the flat position [i] in a tensor of shape [s]. *)
Fixpoint unravel (s : list nat) (i : nat) : list nat :=
  match s with
  | [] => []
  | _ :: s' => (i / numel s')%nat :: unravel s' (i mod numel s')%nat
  end.

(** Flat position of a multi-index in a tensor of shape [s], a dimension of
    size 1 being read at index 0 whatever the index says. *)
Fixpoint ravel (s idx : list nat) : nat :=
  match s, idx with
  | d :: s', j :: idx' =>
      ((if d =? 1 then 0 else j) * numel s' + ravel s' idx')%nat
  | _, _ => 0%nat
  end.

(** Shapes are aligned on their last dimension.  [bshape_rev] works on
    reversed shapes. *)
Fixpoint bshape_rev (r1 r2 : list nat) : option (list nat) :=
  match r1, r2 with
  | [], r => Some r
  | r, [] => Some r
  | a :: r1', b :: r2' =>
      match bshape_rev r1' r2' with
      | None => None
      | Some r =>
          if (a =? b)%nat then Some (a :: r)
          else if (a =? 1)%nat then Some (b :: r)
          else if (b =? 1)%nat then Some (a :: r)
          else None
      end
  end.

Definition broadcast_shapes (s1 s2 : list nat) : option (list nat) :=
  option_map (@rev nat) (bshape_rev (rev s1) (rev s2)).

(** [t.expand(target)], for a [target] that [shape t] broadcasts to. *)
Definition expand (t : tensor) (target : list nat) : tensor :=
  mkTensor target
    (map (fun i =>
            nth (ravel (shape t)
                   (skipn (length target - length (shape t))
                      (unravel target i)))
              (data t) 0)
       (seq 0 (numel target))).

Fixpoint map2 {A B C} (f : A -> B -> C) (l1 : list A) (l2 : list B) : list C :=
  match l1, l2 with
  | a :: l1', b :: l2' => f a b :: map2 f l1' l2'
  | _, _ => []
  end.

(** An elementwise binary operator on two tensors. *)
Definition binop (f : R -> R -> R) (a b : tensor) : result tensor :=
  match broadcast_shapes (shape a) (shape b) with
  | None => inl RuntimeError
  | Some s => inr (mkTensor s (map2 f (data (expand a s)) (data (expand b s))))
  end.

(** ** The tensor library operations the model calls *)

Definition Rltb (x y : R) : bool := if Rlt_dec x y then true else false.

Definition scalar (v : R) : tensor := mkTensor [] [v].

(** [torch.Tensor(d1, ..., dk)]: an uninitialised tensor.  Its elements are
    written by the initialisers before they are ever read; they are zeros
    here. *)
Definition torch_Tensor (dims : list Z) : result tensor :=
  if forallb (fun d => (0 <=? d)%Z) dims
  then let s := map Z.to_nat dims in inr (mkTensor s (repeat 0 (numel s)))
  else inl RuntimeError.

(** A tensor of fresh standard-normal draws, filled in row-major order. *)
Definition randn (s : list nat) : M tensor :=
  fun g =>
    (inr (mkTensor s (map (fun i => noise g (cursor g + i)) (seq 0 (numel s)))),
     advance g (numel s)).

(** [tensor.normal_(mean, std)] *)
Definition normal_ (t : tensor) (mean std : R) : M tensor :=
  eps <- randn (shape t);;
  ret (tmap (fun e => mean + std * e) eps).

(** [nn.init._calculate_correct_fan(tensor, "fan_in")] *)
Definition calculate_fan_in (s : list nat) : result nat :=
  match s with
  | _ :: i :: rest => inr (i * numel rest)%nat
  | _ => inl ValueError
  end.

(** [nn.init.kaiming_normal_(tensor, mode="fan_in", nonlinearity="relu")]:
    a no-op on a tensor without elements, otherwise a normal fill of
    standard deviation [gain / sqrt fan] with [gain = sqrt 2]. *)
Definition kaiming_normal_ (t : tensor) : M tensor :=
  if existsb (Nat.eqb 0) (shape t) then ret t
  else
    fan <- lift (calculate_fan_in (shape t));;
    let gain := sqrt 2 in
    let std := gain / sqrt (INR fan) in
    normal_ t 0 std.

(** *** [torch.distributions.Normal] *)

Record Normal : Type := mkNormal { loc : tensor; scale : tensor }.

(** [Normal(loc, scale)]: both arguments are broadcast to a common shape
    and the scale is validated to be positive. *)
Definition Normal_init (l s : tensor) : result Normal :=
  match broadcast_shapes (shape l) (shape s) with
  | None => inl RuntimeError
  | Some bs =>
      let s' := expand s bs in
      if forallb (Rltb 0) (data s') then inr (mkNormal (expand l bs) s')
      else inl ValueError
  end.

(** [Normal.rsample()]: [loc + eps * scale] with [eps] drawn on the spot. *)
Definition rsample (d : Normal) : M tensor :=
  eps <- randn (shape (loc d));;
  ret (mkTensor (shape (loc d))
         (map2 Rplus (data (loc d)) (map2 Rmult (data eps) (data (scale d))))).

Definition sq (v : R) : R := v ^ 2.

(** [torch.distributions.kl._kl_normal_normal(p, q)]:
    [0.5 * (var_ratio + t1 - 1 - var_ratio.log())]. *)
Definition kl_normal_normal (p q : Normal) : result tensor :=
  r <~ binop Rdiv (scale p) (scale q);;
  let var_ratio := tmap sq r in
  dl <~ binop Rminus (loc p) (loc q);;
  r1 <~ binop Rdiv dl (scale q);;
  let t1 := tmap sq r1 in
  a <~ binop Rplus var_ratio t1;;
  b <~ binop Rminus (tmap (fun v => v - 1) a) (tmap ln var_ratio);;
  inr (tmap (Rmult (1 / 2)) b).

(** Sample validation of [log_prob]: the value has to broadcast against
    the distribution's shape. *)
Definition broadcastable (s1 s2 : list nat) : bool :=
  forallb (fun ij => (fst ij =? 1)%nat || (snd ij =? 1)%nat || (fst ij =? snd ij)%nat)
    (combine (rev s1) (rev s2)).

(** [Normal.log_prob(value)]:
    [-((value - loc) ** 2) / (2 * var) - log_scale - log(sqrt(2 * pi))]. *)
Definition log_prob (d : Normal) (value : tensor) : result tensor :=
  if broadcastable (shape value) (shape (loc d)) then
    let var := tmap sq (scale d) in
    let log_scale := tmap ln (scale d) in
    diff <~ binop Rminus value (loc d);;
    q <~ binop Rdiv (tmap (fun v => - sq v) diff) (tmap (Rmult 2) var);;
    r <~ binop Rminus q log_scale;;
    inr (tmap (fun v => v - ln (sqrt (2 * PI))) r)
  else inl ValueError.

(** *** Linear algebra and reductions *)

(** [F.linear(x, weight, bias)] for a 2-d weight [(out, in)] and a 1-d bias
    [(out)]: every row of [x] along its last dimension is mapped to
    [row @ weight^T + bias]. *)
Definition linear (x w b : tensor) : result tensor :=
  match shape w, rev (shape x) with
  | [o; i], k :: lead =>
      if ((k =? i) && (length (shape b) =? 1) && (hd 0 (shape b) =? o))%nat
      then
        inr (mkTensor (rev lead ++ [o])
               (flat_map
                  (fun r =>
                     map (fun c =>
                            Rsum (map (fun j => nth (r * i + j) (data x) 0
                                                * nth (c * i + j) (data w) 0)
                                    (seq 0 i))
                            + nth c (data b) 0)
                       (seq 0 o))
                  (seq 0 (numel lead))))
      else inl RuntimeError
  | _, _ => inl RuntimeError
  end.

Definition list_eqb (s1 s2 : list nat) : bool :=
  if list_eq_dec Nat.eq_dec s1 s2 then true else false.

(** [torch.stack(ts)] along a new first dimension. *)
Definition stack (ts : list tensor) : result tensor :=
  match ts with
  | [] => inl RuntimeError
  | t :: _ =>
      if forallb (fun u => list_eqb (shape u) (shape t)) ts
      then inr (mkTensor (length ts :: shape t) (flat_map data ts))
      else inl RuntimeError
  end.

(** [t.mean(0)] *)
Definition mean0 (t : tensor) : result tensor :=
  match shape t with
  | [] => inl IndexError
  | d :: s =>
      inr (mkTensor s
             (map (fun j =>
                     Rsum (map (fun i => nth (i * numel s + j) (data t) 0)
                             (seq 0 d)) / INR d)
                (seq 0 (numel s))))
  end.

(** [len(t)] *)
Definition len (t : tensor) : result nat :=
  match shape t with
  | [] => inl TypeError
  | d :: _ => inr d
  end.

(** ** Loops *)

(** [for a in xs: s = body(a, s)] in either monad. *)
Fixpoint for_each {A S} (xs : list A) (body : A -> S -> M S) (s : S) : M S :=
  match xs with
  | [] => ret s
  | a :: xs' => s' <- body a s;; for_each xs' body s'
  end.

Fixpoint rfor_each {A S} (xs : list A) (body : A -> S -> result S) (s : S)
  : result S :=
  match xs with
  | [] => inr s
  | a :: xs' => s' <~ body a s;; rfor_each xs' body s'
  end.

(** [range(n)] *)
Definition range (n : Z) : list Z := map Z.of_nat (seq 0 (Z.to_nat n)).

(** ** [class BnnLayer] *)

Module BnnLayer.

Record t : Type := mk {
  in_features : Z;
  out_features : Z;
  weight_mu : tensor;
  weight_std : tensor;
  bias_mu : tensor;
  bias_std : tensor
}.

Definition reset_parameters (self : t) : M t :=
  wm <- kaiming_normal_ (weight_mu self);;
  let ws := constant_ (weight_std self) (-5) in
  let bm := zeros_ (bias_mu self) in
  let bs := constant_ (bias_std self) (-5) in
  ret (mk (in_features self) (out_features self) wm ws bm bs).

Definition init (in_features out_features : Z) : M t :=
  wm <- lift (torch_Tensor [out_features; in_features]);;
  ws <- lift (torch_Tensor [out_features; in_features]);;
  bm <- lift (torch_Tensor [out_features]);;
  bs <- lift (torch_Tensor [out_features]);;
  reset_parameters (mk in_features out_features wm ws bm bs).

Definition forward (self : t) (x : tensor) : M tensor :=
  pw <- lift (Normal_init (weight_mu self) (texp (weight_std self)));;
  weight <- rsample pw;;
  pb <- lift (Normal_init (bias_mu self) (texp (bias_std self)));;
  bias <- rsample pb;;
  lift (linear x weight bias).

Definition kl_divergence (self : t) : result R :=
  weight_prior <~
    Normal_init (zeros_like (weight_mu self)) (texp (weight_std self));;
  weight_posterior <~ Normal_init (weight_mu self) (texp (weight_std self));;
  klw <~ kl_normal_normal weight_posterior weight_prior;;
  let kl_weight := tsum klw in
  bias_prior <~
    Normal_init (zeros_like (bias_mu self)) (texp (bias_std self));;
  bias_posterior <~ Normal_init (bias_mu self) (texp (bias_std self));;
  klb <~ kl_normal_normal bias_posterior bias_prior;;
  let kl_bias := tsum klb in
  inr (kl_weight + kl_bias).

(** What construction establishes and the optimizer's in-place updates
    preserve: the four parameter tensors have the shapes [(out, in)] and
    [(out)]. *)
Record wf (i o : nat) (self : t) : Prop := {
  wf_weight_mu : shape (weight_mu self) = [o; i];
  wf_weight_std : shape (weight_std self) = [o; i];
  wf_bias_mu : shape (bias_mu self) = [o];
  wf_bias_std : shape (bias_std self) = [o];
  wf_weight_mu_data : wf_tensor (weight_mu self);
  wf_weight_std_data : wf_tensor (weight_std self);
  wf_bias_mu_data : wf_tensor (bias_mu self);
  wf_bias_std_data : wf_tensor (bias_std self)
}.

End BnnLayer.

(** ** [class BayesianModel] *)

Module BayesianModel.

Record t : Type := mk {
  layers : list BnnLayer.t;
  output_layer : BnnLayer.t
}.

Definition init (input_size hidden_size output_size num_layers : Z) : M t :=
  ls <- for_each (range num_layers)
          (fun i acc =>
             l <- (if (i =? 0)%Z then BnnLayer.init input_size hidden_size
                   else BnnLayer.init hidden_size hidden_size);;
             ret (acc ++ [l]))
          [];;
  out <- BnnLayer.init hidden_size output_size;;
  ret (mk ls out).

Definition forward (self : t) (x : tensor) : M tensor :=
  x <- for_each (layers self)
         (fun layer x => y <- BnnLayer.forward layer x;; ret (relu y)) x;;
  BnnLayer.forward (output_layer self) x.

Definition kl_divergence (self : t) : result R :=
  kl <~ rfor_each (layers self)
          (fun layer kl => k <~ BnnLayer.kl_divergence layer;; inr (kl + k))
          0;;
  k <~ BnnLayer.kl_divergence (output_layer self);;
  inr (kl + k).

Definition elbo_loss (self : t) (x y : tensor) (num_samples : Z) : M R :=
  kl <- lift (kl_divergence self);;
  outputs <- for_each (range num_samples)
               (fun _ outputs =>
                  output <- forward self x;;
                  ret (outputs ++ [output]))
               [];;
  outputs <- lift (stack outputs);;
  m <- lift (mean0 outputs);;
  d <- lift (Normal_init m (scalar 1));;
  lp <- lift (log_prob d y);;
  let log_likelihood := tsum lp in
  n <- lift (len x);;
  let elbo := log_likelihood - kl / INR n in
  ret (- elbo).

End BayesianModel.

(** ** What the specification says, and auxiliary notions *)

(** The closed form of the layer's divergence, as the specification words
    it: [0.5 * (mu / sigma)^2] with [sigma = exp log_sigma], summed over all
    elements. *)
Definition kl_closed_form (mu log_sigma : tensor) : R :=
  Rsum (map2 (fun m ls => 1 / 2 * (m / exp ls) ^ 2) (data mu) (data log_sigma)).

Definition layer_kl_closed_form (l : BnnLayer.t) : R :=
  kl_closed_form (BnnLayer.weight_mu l) (BnnLayer.weight_std l)
  + kl_closed_form (BnnLayer.bias_mu l) (BnnLayer.bias_std l).

(** The next [n] draws of a generator. *)
Definition draws (g : rng_state) (n : nat) : list R :=
  map (fun i => noise g (cursor g + i)) (seq 0 n).

(** The reparameterised sample [mu + exp(log_sigma) * epsilon]. *)
Definition reparam (mu log_sigma : tensor) (eps : list R) : tensor :=
  mkTensor (shape mu)
    (map (fun p => fst (fst p) + exp (snd (fst p)) * snd p)
       (combine (combine (data mu) (data log_sigma)) eps)).

(** The layer's forward pass as the specification words it: a weight and a
    bias sample, in that order, then the affine transform. *)
Definition layer_forward_spec (l : BnnLayer.t) (x : tensor) (g : rng_state)
  : result tensor * rng_state :=
  let nw := numel (shape (BnnLayer.weight_mu l)) in
  let nb := numel (shape (BnnLayer.bias_mu l)) in
  let eps_w := draws g nw in
  let eps_b := draws (advance g nw) nb in
  (linear x (reparam (BnnLayer.weight_mu l) (BnnLayer.weight_std l) eps_w)
            (reparam (BnnLayer.bias_mu l) (BnnLayer.bias_std l) eps_b),
   advance g (nw + nb)).

(** [x @ w^T + b] on flat data: [rows] rows of [i] inputs, [o] outputs each. *)
Definition affine_rows (rows i o : nat) (x w b : list R) : list R :=
  flat_map
    (fun r =>
       map (fun c =>
              Rsum (map (fun j => nth (r * i + j) x 0 * nth (c * i + j) w 0)
                      (seq 0 i))
              + nth c b 0)
         (seq 0 o))
    (seq 0 rows).

(** The last dimension of a shape. *)
Definition trailing (s : list nat) : option nat := hd_error (rev s).

(** The structural invariant of a network: consecutive layers agree on
    their widths. *)
Fixpoint chain (i : nat) (ls : list BnnLayer.t) (o : nat) : Prop :=
  match ls with
  | [] => i = o
  | l :: ls' => exists h, BnnLayer.wf i h l /\ chain h ls' o
  end.

Definition model_wf (input output : nat) (m : BayesianModel.t) : Prop :=
  exists h, chain input (BayesianModel.layers m) h
            /\ BnnLayer.wf h output (BayesianModel.output_layer m).

(** A dimension [a] of a source fits the dimension [d] of the target. *)
Definition fits (a d : nat) : Prop := a = d \/ a = 1%nat.

(** [s] broadcasts to [target]: aligned on the last dimension, every
    dimension of [s] fits. *)
Definition bcast_to (s target : list nat) : Prop :=
  exists pad t', target = pad ++ t' /\ Forall2 fits s t'.

(** Log-density of [Normal(mean, sd)] at [v]. *)
Definition normal_logpdf (mean sd v : R) : R :=
  - (v - mean) ^ 2 / (2 * sd ^ 2) - ln sd - ln (sqrt (2 * PI)).

(** Sum over all elements of the log-density of [y] under
    [Normal(y_hat, 1)]. *)
Definition gaussian_log_likelihood (y_hat y : tensor) : R :=
  match broadcast_shapes (shape y) (shape y_hat) with
  | Some bs =>
      Rsum (map2 (fun v mu => normal_logpdf mu 1 v)
              (data (expand y bs)) (data (expand y_hat bs)))
  | None => 0
  end.

(** A tensor of ones: the scale [1] once broadcast. *)
Definition ones (s : list nat) : tensor := mkTensor s (repeat 1 (numel s)).

(** [n] successive stochastic forward passes on the same input. *)
Fixpoint forward_passes (m : BayesianModel.t) (x : tensor) (n : nat)
  : M (list tensor) :=
  match n with
  | O => ret []
  | S n' =>
      o <- BayesianModel.forward m x;;
      os <- forward_passes m x n';;
      ret (o :: os)
  end.

(** Elementwise mean of a list of tensors of one shape. *)
Definition elementwise_mean (outs : list tensor) : tensor :=
  match outs with
  | [] => mkTensor [] []
  | t :: _ =>
      mkTensor (shape t)
        (map (fun j => Rsum (map (fun u => nth j (data u) 0) outs)
                       / INR (length outs))
           (seq 0 (numel (shape t))))
  end.

Definition model_kl_closed_form (m : BayesianModel.t) : R :=
  Rsum (map layer_kl_closed_form (BayesianModel.layers m))
  + layer_kl_closed_form (BayesianModel.output_layer m).

(** The network as the specification words it: every hidden layer followed
    by the nonlinearity, then the output layer alone. *)
Fixpoint network_spec (hidden : list BnnLayer.t) (out : BnnLayer.t) (x : tensor)
  : M tensor :=
  match hidden with
  | [] => BnnLayer.forward out x
  | l :: rest => h <- BnnLayer.forward l x;; network_spec rest out (relu h)
  end.

(** Standard deviation of the fan-in-scaled fill for a ReLU network. *)
Definition kaiming_std (fan_in : nat) : R := sqrt 2 / sqrt (INR fan_in).

(** The body of the comprehension that builds the hidden layers. *)
Definition init_body (input_size hidden_size : Z) (i : Z) (acc : list BnnLayer.t)
  : M (list BnnLayer.t) :=
  l <- (if (i =? 0)%Z then BnnLayer.init input_size hidden_size
        else BnnLayer.init hidden_size hidden_size);;
  ret (acc ++ [l]).

(** Fixed-point enclosure of [exp (-5)]: [exp (-5) = exp (-5 / 2^20) ^ (2^20)],
    the inner value enclosed by [1 + x <= exp x], then squared twenty times
    with outward rounding at scale [10^15]. *)
Definition fx_scale : Z := 10 ^ 15.
Definition fx_steps : nat := 20.
Definition fx_sq_down (l : Z) : Z := (l * l / fx_scale)%Z.
Definition fx_sq_up (u : Z) : Z := ((u * u + (fx_scale - 1)) / fx_scale)%Z.
Definition fx_lo0 : Z := (fx_scale * (2 ^ 20 - 5) / 2 ^ 20)%Z.
Definition fx_hi0 : Z := ((fx_scale * 2 ^ 20 + (2 ^ 20 + 4)) / (2 ^ 20 + 5))%Z.
Definition fx_lo : Z := Nat.iter fx_steps fx_sq_down fx_lo0.
Definition fx_hi : Z := Nat.iter fx_steps fx_sq_up fx_hi0.

(** ** Concrete inputs *)

(** A generator whose every draw is [v]. *)
Definition rng_const (v : R) : rng_state := mkRng (fun _ => v) 0.

(** A hidden layer [2 -> 1] and an output layer [1 -> 1]. *)
Definition example_hidden : BnnLayer.t :=
  BnnLayer.mk 2 1 (mkTensor [1; 2]%nat [1; -1]) (mkTensor [1; 2]%nat [0; 0])
    (mkTensor [1]%nat [0]) (mkTensor [1]%nat [0]).

Definition example_output : BnnLayer.t :=
  BnnLayer.mk 1 1 (mkTensor [1; 1]%nat [1]) (mkTensor [1; 1]%nat [0])
    (mkTensor [1]%nat [0]) (mkTensor [1]%nat [0]).

Definition example_model : BayesianModel.t :=
  BayesianModel.mk [example_hidden] example_output.

(** A batch of two rows, a target of the prediction's shape, and a target
    with a single row. *)
Definition example_x : tensor := mkTensor [2; 2]%nat [1; 0; 0; 1].
Definition example_y : tensor := mkTensor [2; 1]%nat [1; 0].
Definition example_y_row : tensor := mkTensor [1; 1]%nat [1].
Definition example_x1 : tensor := mkTensor [1; 1]%nat [1].
Definition example_x_wide : tensor := mkTensor [1; 3]%nat [1; 0; 0].
Definition example_y_long : tensor := mkTensor [3; 1]%nat [1; 0; 0].

(** ** Draw counts and further concrete inputs *)

(** Number of draws one forward pass of a layer reads: one per weight and
    one per bias. *)
Definition layer_draws (l : BnnLayer.t) : nat :=
  (numel (shape (BnnLayer.weight_mu l)) + numel (shape (BnnLayer.bias_mu l)))%nat.

(** Number of draws one forward pass of a network reads. *)
Definition model_draws (m : BayesianModel.t) : nat :=
  fold_right (fun l acc => (layer_draws l + acc)%nat)
    (layer_draws (BayesianModel.output_layer m)) (BayesianModel.layers m).

(** A batch whose two rows are equal, a 1-d target, and the output layer
    with a larger [log_sigma]. *)
Definition example_x_same : tensor := mkTensor [2; 2]%nat [1; 0; 1; 0].
Definition example_output_wide : BnnLayer.t :=
  BnnLayer.mk 1 1 (mkTensor [1; 1]%nat [1]) (mkTensor [1; 1]%nat [1])
    (mkTensor [1]%nat [0]) (mkTensor [1]%nat [1]).

(** * Properties *)

(** ** The monads *)

Lemma bind_ret_l {A B} (a : A) (k : A -> M B) (g : rng_state) :
  bind (ret a) k g = k a g.
Proof. reflexivity. Qed.

Lemma bind_lift_ok {A B} (a : A) (k : A -> M B) (g : rng_state) :
  bind (lift (inr a)) k g = k a g.
Proof. reflexivity. Qed.

Lemma bind_lift_err {A B} (e : error) (k : A -> M B) (g : rng_state) :
  bind (lift (inl e)) k g = (inl e, g).
Proof. reflexivity. Qed.

(** ** Shapes and indices *)

Lemma numel_cons (d : nat) (s : list nat) : numel (d :: s) = (d * numel s)%nat.
Proof. reflexivity. Qed.

Lemma numel_app (s1 s2 : list nat) :
  numel (s1 ++ s2) = (numel s1 * numel s2)%nat.
Proof.
  induction s1 as [|d s1 IH]; simpl.
  - lia.
  - rewrite IH. lia.
Qed.

Lemma unravel_length (s : list nat) (i : nat) : length (unravel s i) = length s.
Proof.
  revert i. induction s as [|d s IH]; intros i; simpl; [reflexivity|].
  now rewrite IH.
Qed.

Lemma ravel_unravel (s : list nat) (i : nat) :
  (i < numel s)%nat -> ravel s (unravel s i) = i.
Proof.
  revert i. induction s as [|d s IH]; intros i Hi.
  - simpl in *. lia.
  - rewrite numel_cons in Hi. simpl.
    assert (Hpos : (0 < numel s)%nat) by nia.
    rewrite IH by (apply Nat.mod_upper_bound; lia).
    destruct (Nat.eqb_spec d 1) as [->|Hd].
    + rewrite Nat.mul_1_l in Hi. rewrite Nat.mod_small by exact Hi. lia.
    + pose proof (Nat.div_mod_eq i (numel s)). lia.
Qed.

Lemma expand_self (t : tensor) : wf_tensor t -> expand t (shape t) = t.
Proof.
  destruct t as [s d]. unfold wf_tensor, expand. simpl. intros Hwf.
  f_equal. rewrite Nat.sub_diag. simpl.
  apply nth_ext with (d := 0) (d' := 0).
  - now rewrite length_map, length_seq.
  - intros n Hn. rewrite length_map, length_seq in Hn.
    rewrite (nth_indep _ 0 (nth (ravel s (unravel s 0)) d 0))
      by now rewrite length_map, length_seq.
    rewrite (map_nth (fun i => nth (ravel s (unravel s i)) d 0)).
    rewrite seq_nth by exact Hn. simpl.
    now rewrite ravel_unravel.
Qed.

Lemma bshape_rev_same (r : list nat) : bshape_rev r r = Some r.
Proof.
  induction r as [|a r IH]; simpl; [reflexivity|].
  now rewrite IH, Nat.eqb_refl.
Qed.

Lemma broadcast_shapes_same (s : list nat) : broadcast_shapes s s = Some s.
Proof.
  unfold broadcast_shapes. rewrite bshape_rev_same. simpl.
  now rewrite rev_involutive.
Qed.

Lemma binop_same_shape (f : R -> R -> R) (a b : tensor) :
  shape a = shape b -> wf_tensor a -> wf_tensor b ->
  binop f a b = inr (mkTensor (shape a) (map2 f (data a) (data b))).
Proof.
  intros Hs Ha Hb. unfold binop. rewrite <- Hs, broadcast_shapes_same.
  rewrite (expand_self a Ha). rewrite Hs at 2. now rewrite (expand_self b Hb).
Qed.

Lemma map2_length {A B C} (f : A -> B -> C) (l1 : list A) (l2 : list B) :
  length l1 = length l2 -> length (map2 f l1 l2) = length l1.
Proof.
  revert l2. induction l1 as [|a l1 IH]; intros [|b l2] H; simpl in *;
    try discriminate; [reflexivity|].
  f_equal. apply IH. now injection H.
Qed.

Lemma wf_tmap (f : R -> R) (t : tensor) : wf_tensor t -> wf_tensor (tmap f t).
Proof. unfold wf_tensor, tmap. simpl. now rewrite length_map. Qed.

Lemma Rltb_true (x y : R) : x < y -> Rltb x y = true.
Proof. intros H. unfold Rltb. now destruct (Rlt_dec x y). Qed.

Lemma forallb_exp_pos (l : list R) : forallb (Rltb 0) (map exp l) = true.
Proof.
  induction l as [|a l IH]; simpl; [reflexivity|].
  rewrite Rltb_true by apply exp_pos. exact IH.
Qed.

(** A distribution whose scale is [exp] of a tensor of the location's shape
    is always accepted, and neither tensor is changed by broadcasting. *)
Lemma Normal_init_exp (l s : tensor) :
  shape l = shape s -> wf_tensor l -> wf_tensor s ->
  Normal_init l (texp s) = inr (mkNormal l (texp s)).
Proof.
  intros Hs Hl Hw. unfold Normal_init. simpl shape.
  rewrite <- Hs, broadcast_shapes_same.
  assert (He : expand (texp s) (shape l) = texp s).
  { rewrite Hs. apply (expand_self (texp s)). now apply wf_tmap. }
  rewrite He. simpl data. rewrite forallb_exp_pos.
  now rewrite (expand_self l Hl).
Qed.

(** ** KL divergence of a layer *)

Lemma kl_elem (m l : R) :
  1 / 2 * (sq (exp l / exp l) + sq ((m - 0) / exp l) - 1 - ln (sq (exp l / exp l)))
  = 1 / 2 * sq (m / exp l).
Proof.
  assert (He : exp l / exp l = 1) by (field; apply Rgt_not_eq, exp_pos).
  rewrite He. unfold sq. replace (1 ^ 2) with 1 by ring. rewrite ln_1.
  replace (m - 0) with m by ring. ring.
Qed.

Lemma kl_data (dm ds : list R) :
  length dm = length ds ->
  map (Rmult (1 / 2))
    (map2 Rminus
       (map (fun v => v - 1)
          (map2 Rplus (map sq (map2 Rdiv (map exp ds) (map exp ds)))
             (map sq (map2 Rdiv (map2 Rminus dm (map (fun _ => 0) dm))
                        (map exp ds)))))
       (map ln (map sq (map2 Rdiv (map exp ds) (map exp ds)))))
  = map2 (fun m l => 1 / 2 * sq (m / exp l)) dm ds.
Proof.
  revert ds. induction dm as [|m dm IH]; intros [|l ds] H; simpl in *;
    try discriminate; try reflexivity.
  f_equal.
  - apply kl_elem.
  - apply IH. now injection H.
Qed.

Ltac wf_solve :=
  unfold wf_tensor in *; simpl;
  repeat (rewrite ?length_map, ?map2_length; simpl); 
  try congruence; try lia.

Lemma kl_normal_normal_shared_scale (mu s : tensor) :
  shape mu = shape s -> wf_tensor mu -> wf_tensor s ->
  kl_normal_normal (mkNormal mu (texp s)) (mkNormal (zeros_like mu) (texp s))
  = inr (mkTensor (shape mu)
           (map2 (fun m l => 1 / 2 * sq (m / exp l)) (data mu) (data s))).
Proof.
  intros Hs Hm Hw.
  assert (Hlen : length (data mu) = length (data s)).
  { unfold wf_tensor in *. congruence. }
  unfold kl_normal_normal. simpl loc. simpl scale.
  rewrite (binop_same_shape Rdiv (texp s) (texp s)); [|reflexivity|wf_solve..].
  cbn [rbind].
  rewrite (binop_same_shape Rminus mu (zeros_like mu)); [|reflexivity|wf_solve..].
  cbn [rbind].
  rewrite binop_same_shape; [|simpl; congruence|wf_solve..].
  cbn [rbind].
  rewrite binop_same_shape; [|simpl; congruence|wf_solve..].
  cbn [rbind].
  rewrite binop_same_shape; [|simpl; congruence|wf_solve..].
  cbn [rbind]. unfold tmap. simpl. rewrite <- Hs.
  do 2 f_equal. now apply kl_data.
Qed.

Lemma layer_kl_closed (i o : nat) (l : BnnLayer.t) :
  BnnLayer.wf i o l -> BnnLayer.kl_divergence l = inr (layer_kl_closed_form l).
Proof.
  intros [Hwm Hws Hbm Hbs Dwm Dws Dbm Dbs].
  unfold BnnLayer.kl_divergence.
  rewrite (Normal_init_exp (zeros_like (BnnLayer.weight_mu l)));
    [|simpl; congruence|now apply wf_tmap|assumption].
  rewrite (Normal_init_exp (BnnLayer.weight_mu l)); [|congruence|assumption..].
  cbn [rbind].
  rewrite kl_normal_normal_shared_scale; [|congruence|assumption..].
  cbn [rbind].
  rewrite (Normal_init_exp (zeros_like (BnnLayer.bias_mu l)));
    [|simpl; congruence|now apply wf_tmap|assumption].
  rewrite (Normal_init_exp (BnnLayer.bias_mu l)); [|congruence|assumption..].
  cbn [rbind].
  rewrite kl_normal_normal_shared_scale; [|congruence|assumption..].
  reflexivity.
Qed.

Lemma kl_term_nonneg (m l : R) : 0 <= 1 / 2 * (m / exp l) ^ 2.
Proof. pose proof (pow2_ge_0 (m / exp l)). lra. Qed.


Lemma kl_sum_nonneg (dm ds : list R) :
  0 <= Rsum (map2 (fun m ls => 1 / 2 * (m / exp ls) ^ 2) dm ds).
Proof.
  unfold Rsum. revert ds.
  induction dm as [|m dm IH]; intros [|l ds]; cbn [map2 fold_right]; try lra.
  pose proof (kl_term_nonneg m l). pose proof (IH ds). lra.
Qed.

Lemma kl_sum_zero (dm ds : list R) :
  Forall (eq 0) dm ->
  Rsum (map2 (fun m ls => 1 / 2 * (m / exp ls) ^ 2) dm ds) = 0.
Proof.
  intros H. unfold Rsum. revert ds.
  induction H as [|m dm Hm _ IH]; intros [|l ds]; cbn [map2 fold_right];
    try reflexivity.
  rewrite IH, <- Hm. unfold Rdiv. ring.
Qed.


Lemma rfor_each_kl (ls : list BnnLayer.t) (ks : list R) (acc : R) :
  Forall2 (fun l k => BnnLayer.kl_divergence l = inr k) ls ks ->
  rfor_each ls (fun layer kl => k <~ BnnLayer.kl_divergence layer;; inr (kl + k)) acc
  = inr (acc + Rsum ks).
Proof.
  intros H. revert acc.
  induction H as [|l k ls ks Hk _ IH]; intros acc; unfold Rsum in *; simpl.
  - f_equal. ring.
  - rewrite Hk. cbn [rbind]. rewrite IH. f_equal. ring.
Qed.

(** ** Sampling and the layer forward pass *)

Lemma advance_advance (g : rng_state) (a b : nat) :
  advance (advance g a) b = advance g (a + b).
Proof. unfold advance. simpl. f_equal. lia. Qed.

Lemma length_flat_map_regular {A B} (f : A -> list B) (l : list A) (m : nat) :
  (forall a, In a l -> length (f a) = m) ->
  length (flat_map f l) = (length l * m)%nat.
Proof.
  induction l as [|a l IH]; intros H; simpl; [reflexivity|].
  rewrite length_app, IH by (intros; apply H; simpl; auto).
  rewrite (H a) by (simpl; auto). lia.
Qed.

Lemma nth_flat_map_regular {A B} (f : A -> list B) (l : list A) (m i j : nat)
      (a0 : A) (d : B) :
  (forall a, In a l -> length (f a) = m) -> (j < m)%nat -> (i < length l)%nat ->
  nth (i * m + j) (flat_map f l) d = nth j (f (nth i l a0)) d.
Proof.
  intros Hm Hj. revert i. induction l as [|a l IH]; intros i Hi; simpl in Hi.
  - lia.
  - assert (Ha : length (f a) = m) by (apply Hm; simpl; auto).
    simpl flat_map. destruct i as [|i].
    + simpl. rewrite app_nth1 by (rewrite Ha; exact Hj). reflexivity.
    + rewrite app_nth2 by (rewrite Ha; simpl; lia).
      rewrite Ha. replace (S i * m + j - m)%nat with (i * m + j)%nat by (simpl; lia).
      simpl nth. apply IH; [|lia]. intros b Hb. apply Hm. simpl. auto.
Qed.

Lemma rsample_code_spec (dm ds eps : list R) :
  map2 Rplus dm (map2 Rmult eps (map exp ds))
  = map (fun p => fst (fst p) + exp (snd (fst p)) * snd p)
      (combine (combine dm ds) eps).
Proof.
  revert ds eps. induction dm as [|m dm IH]; intros [|s ds] [|e eps]; simpl;
    try reflexivity.
  rewrite IH. f_equal. ring.
Qed.

Lemma rsample_exp (mu s : tensor) (g : rng_state) :
  rsample (mkNormal mu (texp s)) g
  = (inr (reparam mu s (draws g (numel (shape mu)))), advance g (numel (shape mu))).
Proof.
  unfold rsample, randn, bind, ret, reparam, draws. simpl.
  now rewrite rsample_code_spec.
Qed.

Lemma layer_forward_eq (i o : nat) (l : BnnLayer.t) (x : tensor) (g : rng_state) :
  BnnLayer.wf i o l -> BnnLayer.forward l x g = layer_forward_spec l x g.
Proof.
  intros [Hwm Hws Hbm Hbs Dwm Dws Dbm Dbs].
  unfold BnnLayer.forward, layer_forward_spec.
  rewrite (Normal_init_exp (BnnLayer.weight_mu l)) by (congruence || assumption).
  rewrite bind_lift_ok. unfold bind at 1. rewrite rsample_exp.
  rewrite (Normal_init_exp (BnnLayer.bias_mu l)) by (congruence || assumption).
  rewrite bind_lift_ok. unfold bind at 1. rewrite rsample_exp.
  unfold lift. now rewrite advance_advance.
Qed.

(** ** Shapes of the forward pass *)

Lemma numel_rev (s : list nat) : numel (rev s) = numel s.
Proof.
  induction s as [|d s IH]; simpl; [reflexivity|].
  rewrite numel_app, IH. simpl. lia.
Qed.

Lemma linear_ok (x w b : tensor) (lead : list nat) (i o : nat) :
  shape w = [o; i] -> shape b = [o] -> shape x = lead ++ [i] ->
  linear x w b
  = inr (mkTensor (lead ++ [o])
           (affine_rows (numel lead) i o (data x) (data w) (data b))).
Proof.
  intros Hw Hb Hx. unfold linear. rewrite Hw, Hx, rev_app_distr, Hb. simpl.
  rewrite !Nat.eqb_refl. simpl. rewrite rev_involutive.
  unfold affine_rows. now rewrite numel_rev.
Qed.

Lemma linear_mismatch (x w b : tensor) (i o : nat) :
  shape w = [o; i] -> trailing (shape x) <> Some i ->
  linear x w b = inl RuntimeError.
Proof.
  intros Hw Hx. unfold linear, trailing in *. rewrite Hw.
  destruct (rev (shape x)) as [|k lead]; [reflexivity|].
  simpl in Hx. destruct (Nat.eqb_spec k i) as [->|Hk]; [congruence|reflexivity].
Qed.

Lemma affine_rows_length (rows i o : nat) (x w b : list R) :
  length (affine_rows rows i o x w b) = (rows * o)%nat.
Proof.
  unfold affine_rows.
  rewrite (length_flat_map_regular _ _ o).
  - now rewrite length_seq.
  - intros a _. now rewrite length_map, length_seq.
Qed.

Lemma layer_forward_ok (i o : nat) (l : BnnLayer.t) (x : tensor)
      (lead : list nat) (g : rng_state) :
  BnnLayer.wf i o l -> shape x = lead ++ [i] ->
  exists y, BnnLayer.forward l x g = (inr y, advance g (o * i + o))
            /\ shape y = lead ++ [o] /\ wf_tensor y.
Proof.
  intros Hwf Hx. rewrite (layer_forward_eq i o l x g Hwf).
  destruct Hwf as [Hwm Hws Hbm Hbs Dwm Dws Dbm Dbs].
  unfold layer_forward_spec.
  rewrite (linear_ok _ _ _ lead i o) by (simpl; assumption).
  eexists. split; [|split].
  - f_equal. rewrite Hwm, Hbm. simpl. f_equal. lia.
  - reflexivity.
  - unfold wf_tensor. simpl. now rewrite affine_rows_length, numel_app; simpl; lia.
Qed.

Lemma layer_forward_mismatch (i o : nat) (l : BnnLayer.t) (x : tensor)
      (g : rng_state) :
  BnnLayer.wf i o l -> trailing (shape x) <> Some i ->
  fst (BnnLayer.forward l x g) = inl RuntimeError.
Proof.
  intros Hwf Hx. rewrite (layer_forward_eq i o l x g Hwf).
  destruct Hwf as [Hwm Hws Hbm Hbs Dwm Dws Dbm Dbs].
  unfold layer_forward_spec. simpl. now apply (linear_mismatch _ _ _ i o).
Qed.

Lemma wf_relu (t : tensor) : wf_tensor t -> wf_tensor (relu t).
Proof. apply wf_tmap. Qed.

Lemma hidden_pass_ok (ls : list BnnLayer.t) (i h : nat) (x : tensor)
      (lead : list nat) (g : rng_state) :
  chain i ls h -> shape x = lead ++ [i] ->
  exists y g',
    for_each ls (fun layer x => y <- BnnLayer.forward layer x;; ret (relu y)) x g
    = (inr y, g')
    /\ shape y = lead ++ [h] /\ noise g' = noise g.
Proof.
  revert i x g. induction ls as [|l ls IH]; intros i x g Hc Hx; simpl in Hc.
  - subst h. exists x, g. now split.
  - destruct Hc as [k [Hwf Hc]].
    destruct (layer_forward_ok i k l x lead g Hwf Hx) as [y [Hy [Sy Wy]]].
    destruct (IH k (relu y) (advance g (k * i + k)) Hc Sy) as [z [g' [Hz [Sz Nz]]]].
    exists z, g'. split; [|split; assumption].
    simpl for_each. unfold bind at 1. unfold bind at 1. rewrite Hy.
    unfold ret at 1. exact Hz.
Qed.

Lemma model_forward_ok (input output : nat) (m : BayesianModel.t) (x : tensor)
      (lead : list nat) (g : rng_state) :
  model_wf input output m -> shape x = lead ++ [input] ->
  exists y g', BayesianModel.forward m x g = (inr y, g')
               /\ shape y = lead ++ [output] /\ wf_tensor y
               /\ noise g' = noise g.
Proof.
  intros [h [Hc Ho]] Hx.
  destruct (hidden_pass_ok _ input h x lead g Hc Hx) as [z [g1 [Hz [Sz Nz]]]].
  destruct (layer_forward_ok h output _ z lead g1 Ho Sz) as [y [Hy [Sy Wy]]].
  exists y, (advance g1 (output * h + output)).
  unfold BayesianModel.forward. unfold bind at 1. rewrite Hz.
  repeat split; assumption.
Qed.

(** ** Broadcasting *)

Lemma Forall2_fits_refl (s : list nat) : Forall2 fits s s.
Proof. induction s; constructor; [now left|assumption]. Qed.

Lemma Forall2_rev_fits (l1 l2 : list nat) :
  Forall2 fits l1 l2 -> Forall2 fits (rev l1) (rev l2).
Proof.
  induction 1 as [|a d l1 l2 H _ IH]; simpl; [constructor|].
  apply Forall2_app; [exact IH|]. now constructor.
Qed.

Lemma bshape_rev_fits (r1 r2 r : list nat) :
  bshape_rev r1 r2 = Some r ->
  (exists q p, r = q ++ p /\ Forall2 fits r1 q)
  /\ (exists q p, r = q ++ p /\ Forall2 fits r2 q).
Proof.
  revert r2 r. induction r1 as [|a r1 IH]; intros r2 r H.
  - simpl in H. injection H as <-. split.
    + exists [], r2. split; [reflexivity|constructor].
    + exists r2, []. split; [now rewrite app_nil_r|apply Forall2_fits_refl].
  - destruct r2 as [|b r2].
    + simpl in H. injection H as <-. split.
      * exists (a :: r1), []. split; [now rewrite app_nil_r|apply Forall2_fits_refl].
      * exists [], (a :: r1). split; [reflexivity|constructor].
    + simpl in H. destruct (bshape_rev r1 r2) as [r'|] eqn:E; [|discriminate].
      destruct (IH r2 r' E) as [[q1 [p1 [E1 F1]]] [q2 [p2 [E2 F2]]]].
      assert (Hc : exists c, r = c :: r' /\ fits a c /\ fits b c).
      { destruct (Nat.eqb_spec a b) as [->|Hab].
        - injection H as <-. exists b. repeat split; now left.
        - destruct (Nat.eqb_spec a 1) as [->|Ha].
          + injection H as <-. exists b. repeat split; [now right|now left].
          + destruct (Nat.eqb_spec b 1) as [->|Hb]; [|discriminate].
            injection H as <-. exists a. repeat split; [now left|now right]. }
      destruct Hc as [c [-> [Fa Fb]]]. split.
      * exists (c :: q1), p1. split; [simpl; congruence|now constructor].
      * exists (c :: q2), p2. split; [simpl; congruence|now constructor].
Qed.

Lemma broadcast_shapes_bcast_to (s1 s2 bs : list nat) :
  broadcast_shapes s1 s2 = Some bs -> bcast_to s1 bs /\ bcast_to s2 bs.
Proof.
  unfold broadcast_shapes. intros H.
  destruct (bshape_rev (rev s1) (rev s2)) as [r|] eqn:E; [|discriminate].
  simpl in H. injection H as <-.
  destruct (bshape_rev_fits _ _ _ E) as [[q1 [p1 [E1 F1]]] [q2 [p2 [E2 F2]]]].
  split.
  - exists (rev p1), (rev q1). split; [now rewrite E1, rev_app_distr|].
    rewrite <- (rev_involutive s1). now apply Forall2_rev_fits.
  - exists (rev p2), (rev q2). split; [now rewrite E2, rev_app_distr|].
    rewrite <- (rev_involutive s2). now apply Forall2_rev_fits.
Qed.

Lemma bshape_rev_absorb (r1 r2 r : list nat) :
  bshape_rev r1 r2 = Some r -> bshape_rev r r2 = Some r.
Proof.
  revert r2 r. induction r1 as [|a r1 IH]; intros r2 r H.
  - simpl in H. injection H as <-. apply bshape_rev_same.
  - destruct r2 as [|b r2].
    + simpl in H. injection H as <-. reflexivity.
    + simpl in H. destruct (bshape_rev r1 r2) as [r'|] eqn:E; [|discriminate].
      pose proof (IH r2 r' E) as IH'.
      destruct (Nat.eqb_spec a b) as [->|Hab].
      * injection H as <-. simpl. now rewrite IH', Nat.eqb_refl.
      * destruct (Nat.eqb_spec a 1) as [->|Ha].
        -- injection H as <-. simpl. now rewrite IH', Nat.eqb_refl.
        -- destruct (Nat.eqb_spec b 1) as [->|Hb]; [|discriminate].
           injection H as <-. simpl. rewrite IH'.
           destruct (Nat.eqb_spec a 1); [contradiction|]. reflexivity.
Qed.

Lemma broadcast_shapes_absorb (s1 s2 bs : list nat) :
  broadcast_shapes s1 s2 = Some bs -> broadcast_shapes bs s2 = Some bs.
Proof.
  unfold broadcast_shapes. intros H.
  destruct (bshape_rev (rev s1) (rev s2)) as [r|] eqn:E; [|discriminate].
  simpl in H. injection H as <-. rewrite rev_involutive.
  now rewrite (bshape_rev_absorb _ _ _ E).
Qed.

Lemma broadcastable_bshape_rev (r1 r2 : list nat) :
  forallb (fun ij => (fst ij =? 1)%nat || (snd ij =? 1)%nat || (fst ij =? snd ij)%nat)
    (combine r1 r2) = true
  <-> exists r, bshape_rev r1 r2 = Some r.
Proof.
  revert r2. induction r1 as [|a r1 IH]; intros r2.
  - simpl. split; [intros _; now exists r2|reflexivity].
  - destruct r2 as [|b r2].
    + simpl. split; [intros _; now exists (a :: r1)|reflexivity].
    + simpl. rewrite andb_true_iff, IH. split.
      * intros [Hc [r E]]. rewrite E.
        destruct (Nat.eqb_spec a b); [eauto|].
        destruct (Nat.eqb_spec a 1); [eauto|].
        destruct (Nat.eqb_spec b 1); [eauto|]. discriminate.
      * intros [r E]. destruct (bshape_rev r1 r2) as [r'|]; [|discriminate].
        split; [|eauto].
        destruct (Nat.eqb_spec a b); [now rewrite !orb_true_r|].
        destruct (Nat.eqb_spec a 1); [reflexivity|].
        destruct (Nat.eqb_spec b 1); [now rewrite orb_true_r|discriminate].
Qed.

Lemma broadcastable_iff (s1 s2 : list nat) :
  broadcastable s1 s2 = true <-> exists bs, broadcast_shapes s1 s2 = Some bs.
Proof.
  unfold broadcastable, broadcast_shapes. rewrite broadcastable_bshape_rev.
  split; intros [r E].
  - rewrite E. now exists (rev r).
  - destruct (bshape_rev (rev s1) (rev s2)) as [r'|]; [now exists r'|discriminate].
Qed.

(** Index bound: reading a source through a broadcast stays in range. *)
Lemma ravel_fits_lt (s t' : list nat) (i : nat) :
  Forall2 fits s t' -> (i < numel t')%nat -> (ravel s (unravel t' i) < numel s)%nat.
Proof.
  intros F. revert i. induction F as [|a d s t' Hf _ IH]; intros i Hi.
  - simpl. lia.
  - rewrite numel_cons in Hi. simpl unravel.
    assert (Hpos : (0 < numel t')%nat) by nia.
    assert (Hm : (i mod numel t' < numel t')%nat) by (apply Nat.mod_upper_bound; lia).
    specialize (IH _ Hm).
    assert (Hd : (i / numel t' < d)%nat) by (apply Nat.Div0.div_lt_upper_bound; lia).
    simpl ravel. rewrite numel_cons.
    destruct (Nat.eqb_spec a 1) as [->|Ha].
    + lia.
    + destruct Hf as [->|]; [|contradiction]. nia.
Qed.

Lemma skipn_unravel_pad (pad t' : list nat) (i : nat) :
  (i < numel (pad ++ t'))%nat ->
  exists i', (i' < numel t')%nat
             /\ skipn (length pad) (unravel (pad ++ t') i) = unravel t' i'.
Proof.
  revert i. induction pad as [|d pad IH]; intros i Hi.
  - exists i. now split.
  - simpl app in *. rewrite numel_cons in Hi. simpl.
    apply IH. apply Nat.mod_upper_bound. nia.
Qed.

Lemma ravel_bcast_lt (s target : list nat) (i : nat) :
  bcast_to s target -> (i < numel target)%nat ->
  (ravel s (skipn (length target - length s) (unravel target i)) < numel s)%nat.
Proof.
  intros [pad [t' [-> F]]] Hi.
  rewrite (Forall2_length F), length_app.
  replace (length pad + length t' - length t')%nat with (length pad) by lia.
  destruct (skipn_unravel_pad pad t' i Hi) as [i' [Hi' ->]].
  now apply ravel_fits_lt.
Qed.

Lemma expand_repeat (s target : list nat) (c : R) :
  bcast_to s target ->
  expand (mkTensor s (repeat c (numel s))) target
  = mkTensor target (repeat c (numel target)).
Proof.
  intros Hb. unfold expand. simpl. f_equal.
  transitivity (map (fun _ : nat => c) (seq 0 (numel target))).
  - apply map_ext_in. intros i Hi. apply in_seq in Hi.
    apply nth_repeat_lt. apply ravel_bcast_lt; [exact Hb|lia].
  - now rewrite map_const, length_seq.
Qed.

Lemma expand_length (t : tensor) (target : list nat) :
  length (data (expand t target)) = numel target.
Proof. unfold expand. simpl. now rewrite length_map, length_seq. Qed.

(** ** Unit-scale normal distribution *)

Lemma bshape_rev_nil_r (r : list nat) : bshape_rev r [] = Some r.
Proof. now destruct r. Qed.

Lemma bcast_to_nil (s : list nat) : bcast_to [] s.
Proof. exists s, []. split; [now rewrite app_nil_r|constructor]. Qed.

Lemma forallb_repeat_pos (c : R) (n : nat) :
  0 < c -> forallb (Rltb 0) (repeat c n) = true.
Proof.
  intros Hc. induction n as [|n IH]; simpl; [reflexivity|].
  now rewrite Rltb_true.
Qed.

Lemma Normal_init_unit (m : tensor) :
  wf_tensor m -> Normal_init m (scalar 1) = inr (mkNormal m (ones (shape m))).
Proof.
  intros Hm. unfold Normal_init. simpl shape.
  unfold broadcast_shapes. simpl rev. rewrite bshape_rev_nil_r. simpl option_map.
  rewrite rev_involutive.
  change (scalar 1) with (mkTensor [] (repeat 1 (numel []))).
  rewrite (expand_repeat [] (shape m) 1 (bcast_to_nil _)). simpl data.
  rewrite forallb_repeat_pos by lra. now rewrite (expand_self m Hm).
Qed.

Lemma expand_same (t : tensor) (s : list nat) :
  shape t = s -> wf_tensor t -> expand t s = t.
Proof. intros <-. apply expand_self. Qed.

Lemma map2_length_eq {A B C} (f : A -> B -> C) (l1 : list A) (l2 : list B)
      (n : nat) :
  length l1 = n -> length l2 = n -> length (map2 f l1 l2) = n.
Proof. intros H1 H2. rewrite map2_length; congruence. Qed.

Ltac len_solve :=
  repeat first
    [ apply map2_length_eq | rewrite length_map | apply expand_length
    | apply repeat_length | reflexivity ].

Lemma log_prob_data (ey em : list R) (n : nat) :
  length ey = n -> length em = n ->
  map (fun v => v - ln (sqrt (2 * PI)))
    (map2 Rminus
       (map2 Rdiv (map (fun v => - sq v) (map2 Rminus ey em))
          (repeat (2 * sq 1) n))
       (repeat (ln 1) n))
  = map2 (fun v mu => normal_logpdf mu 1 v) ey em.
Proof.
  revert em n. induction ey as [|v ey IH]; intros [|mu em] [|n] H1 H2;
    cbn [map map2 repeat length] in *; try discriminate; try reflexivity.
  rewrite IH by congruence. reflexivity.
Qed.

Lemma log_prob_unit (m y : tensor) (bs : list nat) :
  wf_tensor m -> broadcast_shapes (shape y) (shape m) = Some bs ->
  log_prob (mkNormal m (ones (shape m))) y
  = inr (mkTensor bs
           (map2 (fun v mu => normal_logpdf mu 1 v)
              (data (expand y bs)) (data (expand m bs)))).
Proof.
  intros Hm Hb. unfold log_prob. simpl loc. simpl scale.
  assert (Hok : broadcastable (shape y) (shape m) = true).
  { apply broadcastable_iff. now exists bs. }
  rewrite Hok.
  destruct (broadcast_shapes_bcast_to _ _ _ Hb) as [_ Hto].
  pose proof (broadcast_shapes_absorb _ _ _ Hb) as Habs.
  assert (E1 : expand (tmap (Rmult 2) (tmap sq (ones (shape m)))) bs
               = mkTensor bs (repeat (2 * sq 1) (numel bs))).
  { unfold tmap, ones. simpl. rewrite !map_repeat. now apply expand_repeat. }
  assert (E2 : expand (tmap ln (ones (shape m))) bs
               = mkTensor bs (repeat (ln 1) (numel bs))).
  { unfold tmap, ones. simpl. rewrite !map_repeat. now apply expand_repeat. }
  unfold binop at 1. rewrite Hb. cbn [rbind].
  unfold binop at 1. cbn [shape tmap].
  change (shape (ones (shape m))) with (shape m). rewrite Habs. cbn [rbind].
  unfold binop at 1. cbn [shape tmap].
  change (shape (ones (shape m))) with (shape m). rewrite Habs. cbn [rbind].
  rewrite E1, E2.
  match goal with
  | |- context [expand (tmap ?f ?t) bs] =>
      rewrite (expand_same (tmap f t) bs)
        by (try reflexivity; unfold wf_tensor; cbn [shape data tmap]; len_solve)
  end.
  cbn [data tmap].
  match goal with
  | |- context [expand (mkTensor bs ?d) bs] =>
      rewrite (expand_same (mkTensor bs d) bs)
        by (try reflexivity; unfold wf_tensor; cbn [shape data]; len_solve)
  end.
  unfold tmap. cbn [data shape]. do 2 f_equal.
  apply log_prob_data; apply expand_length.
Qed.

(** ** The ELBO loss *)

Lemma list_eqb_refl (s : list nat) : list_eqb s s = true.
Proof. unfold list_eqb. now destruct (list_eq_dec Nat.eq_dec s s). Qed.

Lemma stack_ok (ts : list tensor) (t : tensor) (s : list nat) :
  Forall (fun u => shape u = s) (t :: ts) ->
  stack (t :: ts) = inr (mkTensor (length (t :: ts) :: s) (flat_map data (t :: ts))).
Proof.
  intros H. unfold stack.
  assert (Ht : shape t = s) by now inversion H.
  assert (Hall : forallb (fun u => list_eqb (shape u) (shape t)) (t :: ts) = true).
  { apply forallb_forall. intros u Hu. rewrite Forall_forall in H.
    rewrite (H u Hu), Ht. apply list_eqb_refl. }
  rewrite Hall. now rewrite Ht.
Qed.

Lemma map_nth_seq {A B} (g : A -> B) (l : list A) (a0 : A) :
  map (fun i => g (nth i l a0)) (seq 0 (length l)) = map g l.
Proof.
  induction l as [|a l IH]; simpl; [reflexivity|].
  f_equal. rewrite <- seq_shift, map_map. exact IH.
Qed.

Lemma mean0_stack (ts : list tensor) (t : tensor) (s : list nat) :
  Forall (fun u => shape u = s /\ wf_tensor u) (t :: ts) ->
  mean0 (mkTensor (length (t :: ts) :: s) (flat_map data (t :: ts)))
  = inr (elementwise_mean (t :: ts)).
Proof.
  intros H. unfold mean0, elementwise_mean. cbn [shape data].
  assert (Ht : shape t = s) by (inversion H; tauto).
  rewrite Ht. do 2 f_equal.
  apply map_ext_in. intros j Hj. apply in_seq in Hj. f_equal.
  rewrite <- (map_nth_seq (fun u => nth j (data u) 0) (t :: ts) t).
  apply (f_equal Rsum). apply map_ext_in. intros i Hi. apply in_seq in Hi.
  apply nth_flat_map_regular; [|lia|lia].
  intros u Hu. rewrite Forall_forall in H. destruct (H u Hu) as [Su Wu].
  unfold wf_tensor in Wu. now rewrite Wu, Su.
Qed.

Lemma for_each_passes (m : BayesianModel.t) (x : tensor) {A} (xs : list A)
      (acc : list tensor) (g : rng_state) :
  for_each xs
    (fun _ outputs => output <- BayesianModel.forward m x;;
                      ret (outputs ++ [output])) acc g
  = match forward_passes m x (length xs) g with
    | (inr outs, g') => (inr (acc ++ outs), g')
    | (inl e, g') => (inl e, g')
    end.
Proof.
  revert acc g. induction xs as [|a xs IH]; intros acc g.
  - simpl. unfold ret. now rewrite app_nil_r.
  - cbn [for_each forward_passes length]. unfold bind at 1. unfold bind at 1.
    unfold bind at 2.
    destruct (BayesianModel.forward m x g) as [[e|o] g1]; [reflexivity|].
    unfold ret at 1. rewrite IH. unfold bind.
    destruct (forward_passes m x (length xs) g1) as [[e|os] g2]; [reflexivity|].
    unfold ret. now rewrite <- app_assoc.
Qed.

Lemma range_length (n : nat) : length (range (Z.of_nat n)) = n.
Proof. unfold range. now rewrite length_map, length_seq, Nat2Z.id. Qed.

Lemma forward_passes_ok (input output : nat) (m : BayesianModel.t) (x : tensor)
      (lead : list nat) (n : nat) (g : rng_state) :
  model_wf input output m -> shape x = lead ++ [input] ->
  exists outs g',
    forward_passes m x n g = (inr outs, g')
    /\ length outs = n
    /\ Forall (fun u => shape u = lead ++ [output] /\ wf_tensor u) outs
    /\ noise g' = noise g.
Proof.
  intros Hwf Hx. revert g. induction n as [|n IH]; intros g.
  - exists [], g. repeat split. constructor.
  - destruct (model_forward_ok input output m x lead g Hwf Hx)
      as [y [g1 [Hy [Sy [Wy Ny]]]]].
    destruct (IH g1) as [outs [g2 [Ho [Lo [Fo No]]]]].
    exists (y :: outs), g2. cbn [forward_passes]. unfold bind at 1. rewrite Hy.
    unfold bind at 1. rewrite Ho. unfold ret. repeat split.
    + simpl. now rewrite Lo.
    + constructor; [now split|exact Fo].
    + congruence.
Qed.

Lemma chain_kl (i h : nat) (ls : list BnnLayer.t) :
  chain i ls h ->
  Forall2 (fun l k => BnnLayer.kl_divergence l = inr k) ls
    (map layer_kl_closed_form ls).
Proof.
  revert i. induction ls as [|l ls IH]; intros i Hc; simpl in *.
  - constructor.
  - destruct Hc as [k [Hwf Hc]]. constructor.
    + now apply (layer_kl_closed i k).
    + now apply (IH k).
Qed.

Lemma model_kl_closed (input output : nat) (m : BayesianModel.t) :
  model_wf input output m ->
  BayesianModel.kl_divergence m = inr (model_kl_closed_form m).
Proof.
  intros [h [Hc Ho]]. unfold BayesianModel.kl_divergence.
  rewrite (rfor_each_kl _ _ 0 (chain_kl _ _ _ Hc)). cbn [rbind].
  rewrite (layer_kl_closed h output _ Ho). cbn [rbind].
  unfold model_kl_closed_form. f_equal. ring.
Qed.

Lemma len_ok (x : tensor) (lead : list nat) (i : nat) :
  shape x = lead ++ [i] -> len x = inr (hd 0%nat (shape x)).
Proof.
  intros Hx. unfold len. rewrite Hx. now destruct lead.
Qed.

Lemma elbo_loss_reduce (input output : nat) (m : BayesianModel.t) (x y : tensor)
      (lead : list nat) (n : nat) (g : rng_state) :
  model_wf input output m -> shape x = lead ++ [input] -> (0 < n)%nat ->
  exists outs g',
    forward_passes m x n g = (inr outs, g')
    /\ length outs = n
    /\ shape (elementwise_mean outs) = lead ++ [output]
    /\ wf_tensor (elementwise_mean outs)
    /\ BayesianModel.elbo_loss m x y (Z.of_nat n) g
       = (lp <~ log_prob (mkNormal (elementwise_mean outs)
                            (ones (shape (elementwise_mean outs)))) y;;
          inr (- (tsum lp - model_kl_closed_form m / INR (hd 0%nat (shape x)))),
          g').
Proof.
  intros Hwf Hx Hn.
  destruct (forward_passes_ok input output m x lead n g Hwf Hx)
    as [outs [g' [Hp [Lo [Fo No]]]]].
  exists outs, g'. split; [exact Hp|]. split; [exact Lo|].
  destruct outs as [|t ts]; [simpl in Lo; lia|].
  assert (Fs : Forall (fun u => shape u = lead ++ [output]) (t :: ts)).
  { eapply Forall_impl; [|exact Fo]. simpl. tauto. }
  assert (Sm : shape (elementwise_mean (t :: ts)) = lead ++ [output]).
  { simpl. now inversion Fs. }
  assert (Wm : wf_tensor (elementwise_mean (t :: ts))).
  { unfold wf_tensor. cbn [elementwise_mean shape data].
    now rewrite length_map, length_seq. }
  split; [exact Sm|]. split; [exact Wm|].
  unfold BayesianModel.elbo_loss.
  rewrite (model_kl_closed input output m Hwf), bind_lift_ok.
  unfold bind at 1. rewrite for_each_passes, range_length, Hp. cbn [app].
  rewrite (stack_ok ts t _ Fs), bind_lift_ok.
  rewrite (mean0_stack ts t _ Fo), bind_lift_ok.
  rewrite (Normal_init_unit _ Wm), bind_lift_ok.
  destruct (log_prob _ y) as [e|lp].
  - reflexivity.
  - rewrite bind_lift_ok. rewrite (len_ok x lead input Hx), bind_lift_ok.
    reflexivity.
Qed.

Lemma elbo_loss_ok (input output : nat) (m : BayesianModel.t) (x y : tensor)
      (lead bs : list nat) (n : nat) (g : rng_state) :
  model_wf input output m -> shape x = lead ++ [input] -> (0 < n)%nat ->
  broadcast_shapes (shape y) (lead ++ [output]) = Some bs ->
  exists K outs g',
    BayesianModel.kl_divergence m = inr K
    /\ forward_passes m x n g = (inr outs, g')
    /\ length outs = n
    /\ BayesianModel.elbo_loss m x y (Z.of_nat n) g
       = (inr (- (gaussian_log_likelihood (elementwise_mean outs) y
                  - K / INR (hd 0%nat (shape x)))), g').
Proof.
  intros Hwf Hx Hn Hb.
  destruct (elbo_loss_reduce input output m x y lead n g Hwf Hx Hn)
    as [outs [g' [Hp [Lo [Sm [Wm He]]]]]].
  exists (model_kl_closed_form m), outs, g'.
  split; [now apply (model_kl_closed input output)|]. split; [exact Hp|].
  split; [exact Lo|]. rewrite He. rewrite <- Sm in Hb.
  rewrite (log_prob_unit _ y bs Wm Hb). cbn [rbind].
  unfold gaussian_log_likelihood. now rewrite Hb.
Qed.

Lemma elbo_loss_not_broadcastable (input output : nat) (m : BayesianModel.t)
      (x y : tensor) (lead : list nat) (n : nat) (g : rng_state) :
  model_wf input output m -> shape x = lead ++ [input] -> (0 < n)%nat ->
  broadcastable (shape y) (lead ++ [output]) = false ->
  fst (BayesianModel.elbo_loss m x y (Z.of_nat n) g) = inl ValueError.
Proof.
  intros Hwf Hx Hn Hb.
  destruct (elbo_loss_reduce input output m x y lead n g Hwf Hx Hn)
    as [outs [g' [Hp [Lo [Sm [Wm He]]]]]].
  rewrite He. unfold log_prob. cbn [loc fst]. now rewrite Sm, Hb.
Qed.

Lemma model_forward_spec (ls : list BnnLayer.t) (out : BnnLayer.t) (x : tensor)
      (g : rng_state) :
  BayesianModel.forward (BayesianModel.mk ls out) x g = network_spec ls out x g.
Proof.
  unfold BayesianModel.forward. cbn [BayesianModel.layers BayesianModel.output_layer].
  revert x g. induction ls as [|l ls IH]; intros x g.
  - reflexivity.
  - specialize (IH (relu (match BnnLayer.forward l x g with
                            | (inr h, _) => h | _ => x end))
                    (snd (BnnLayer.forward l x g))).
    cbn [for_each network_spec]. unfold bind in *.
    destruct (BnnLayer.forward l x g) as [[e|h] g1]; [reflexivity|].
    exact IH.
Qed.

(** ** Construction *)

Lemma layer_init_negative (i o : Z) (g : rng_state) :
  (i < 0 \/ o < 0)%Z -> BnnLayer.init i o g = (inl RuntimeError, g).
Proof.
  intros H. unfold BnnLayer.init, torch_Tensor. simpl forallb.
  destruct (Z.leb_spec 0 o); destruct (Z.leb_spec 0 i); try lia; reflexivity.
Qed.

Lemma existsb_zero_dims (o i : nat) :
  existsb (Nat.eqb 0) [o; i] = false <-> (0 < o /\ 0 < i)%nat.
Proof.
  destruct o, i; simpl; split; intros H; try discriminate; lia.
Qed.

Lemma layer_init_ok (i o : Z) (g : rng_state) :
  (0 <= i)%Z -> (0 <= o)%Z ->
  exists l g',
    BnnLayer.init i o g = (inr l, g')
    /\ BnnLayer.wf (Z.to_nat i) (Z.to_nat o) l
    /\ noise g' = noise g
    /\ Forall (eq (-5)) (data (BnnLayer.weight_std l))
    /\ Forall (eq (-5)) (data (BnnLayer.bias_std l))
    /\ Forall (eq 0) (data (BnnLayer.bias_mu l))
    /\ ((0 < i)%Z -> (0 < o)%Z ->
        data (BnnLayer.weight_mu l)
        = map (fun e => 0 + kaiming_std (Z.to_nat i) * e)
            (draws g (Z.to_nat o * Z.to_nat i))
        /\ g' = advance g (Z.to_nat o * Z.to_nat i)).
Proof.
  intros Hi Ho. unfold BnnLayer.init, torch_Tensor. simpl forallb.
  destruct (Z.leb_spec 0 o); [|lia]. destruct (Z.leb_spec 0 i); [|lia].
  simpl andb. cbv iota. rewrite !bind_lift_ok.
  unfold BnnLayer.reset_parameters. cbn [BnnLayer.weight_mu BnnLayer.weight_std
    BnnLayer.bias_mu BnnLayer.bias_std BnnLayer.in_features BnnLayer.out_features].
  unfold kaiming_normal_. cbn [shape map].
  set (I := Z.to_nat i). set (O := Z.to_nat o).
  assert (Hn2 : numel [O; I] = (O * I)%nat) by (simpl; lia).
  assert (Hn1 : numel [O] = O) by (simpl; lia).
  destruct (existsb (Nat.eqb 0) [O; I]) eqn:Ez.
  - rewrite bind_ret_l. unfold ret. eexists. eexists. split; [reflexivity|].
    split; [|split; [reflexivity|]].
    + constructor; try reflexivity; unfold wf_tensor, constant_, zeros_, constant_, tmap;
        cbn [shape data BnnLayer.weight_mu BnnLayer.weight_std BnnLayer.bias_mu
             BnnLayer.bias_std]; rewrite ?length_map, repeat_length; reflexivity.
    + cbn [BnnLayer.weight_mu BnnLayer.weight_std BnnLayer.bias_mu
           BnnLayer.bias_std constant_ zeros_ tmap data].
      rewrite !map_const. repeat split; try (apply Forall_forall; intros v Hv;
        apply repeat_spec in Hv; now subst v).
      all: exfalso; assert (Hz : existsb (Nat.eqb 0) [O; I] = false)
        by (apply existsb_zero_dims; subst I O; lia); congruence.
  - apply existsb_zero_dims in Ez. destruct Ez as [HO HI].
    unfold bind, lift, calculate_fan_in, normal_, randn, ret. cbn [shape].
    cbv beta iota.
    eexists. eexists. split; [reflexivity|].
    split; [|split; [reflexivity|]].
    + constructor; try reflexivity; unfold wf_tensor, constant_, zeros_, constant_, tmap;
        cbn [shape data BnnLayer.weight_mu BnnLayer.weight_std BnnLayer.bias_mu
             BnnLayer.bias_std]; rewrite ?length_map, ?repeat_length, ?length_seq;
        reflexivity.
    + cbn [BnnLayer.weight_mu BnnLayer.weight_std BnnLayer.bias_mu
           BnnLayer.bias_std constant_ zeros_ tmap data].
      rewrite !map_const. repeat split; try (apply Forall_forall; intros v Hv;
        apply repeat_spec in Hv; now subst v).
      * unfold draws, kaiming_std. rewrite Hn2. cbn [numel fold_right].
        now rewrite Nat.mul_1_r.
      * now rewrite Hn2.
Qed.

Lemma init_tail (input hidden : Z) (k : nat) :
  (0 <= hidden)%Z ->
  forall (a : nat) (acc : list BnnLayer.t) (g : rng_state),
    (1 <= a)%nat ->
    exists ls g',
      for_each (map Z.of_nat (seq a k)) (init_body input hidden) acc g
      = (inr (acc ++ ls), g')
      /\ chain (Z.to_nat hidden) ls (Z.to_nat hidden)
      /\ length ls = k /\ noise g' = noise g.
Proof.
  intros Hh. induction k as [|k IH]; intros a acc g Ha.
  - exists [], g. simpl. unfold ret. rewrite app_nil_r. now repeat split.
  - destruct (layer_init_ok hidden hidden g Hh Hh) as [l [g1 [Hl [Wl [Nl _]]]]].
    destruct (IH (S a) (acc ++ [l]) g1 ltac:(lia)) as [ls [g2 [Hls [Cls [Lls Nls]]]]].
    exists (l :: ls), g2. cbn [seq map for_each]. unfold bind at 1.
    unfold init_body at 1.
    destruct (Z.eqb_spec (Z.of_nat a) 0) as [E|_]; [lia|].
    unfold bind at 1. rewrite Hl. unfold ret at 1. rewrite Hls.
    rewrite <- app_assoc. repeat split.
    + exists (Z.to_nat hidden). now split.
    + simpl. now rewrite Lls.
    + congruence.
Qed.

Lemma range_nonpos (n : Z) : (n <= 0)%Z -> range n = [].
Proof.
  intros H. unfold range. destruct n; simpl; try reflexivity. lia.
Qed.

Lemma range_pos (n : Z) :
  (1 <= n)%Z -> range n = 0%Z :: map Z.of_nat (seq 1 (Z.to_nat n - 1)).
Proof.
  intros H. unfold range.
  replace (Z.to_nat n) with (S (Z.to_nat n - 1)) at 1 by lia. reflexivity.
Qed.

Lemma init_layers_ok (input hidden n : Z) (g : rng_state) :
  (0 <= input)%Z -> (0 <= hidden)%Z -> (1 <= n)%Z ->
  exists ls g',
    for_each (range n) (init_body input hidden) [] g = (inr ls, g')
    /\ chain (Z.to_nat input) ls (Z.to_nat hidden)
    /\ length ls = Z.to_nat n /\ noise g' = noise g.
Proof.
  intros Hi Hh Hn.
  destruct (layer_init_ok input hidden g Hi Hh) as [l [g1 [Hl [Wl [Nl _]]]]].
  destruct (init_tail input hidden (Z.to_nat n - 1) Hh 1 [l] g1 (le_n _))
    as [ls [g2 [Hls [Cls [Lls Nls]]]]].
  exists (l :: ls), g2. rewrite (range_pos n Hn). cbn [for_each].
  unfold bind at 1. unfold init_body at 1. simpl Z.eqb. cbv iota.
  unfold bind at 1. rewrite Hl. unfold ret at 1. simpl app. rewrite Hls.
  repeat split.
  - exists (Z.to_nat hidden). now split.
  - simpl. lia.
  - congruence.
Qed.

Lemma model_init_unfold (input hidden output n : Z) :
  BayesianModel.init input hidden output n
  = (ls <- for_each (range n) (init_body input hidden) [];;
     out <- BnnLayer.init hidden output;;
     ret (BayesianModel.mk ls out)).
Proof. reflexivity. Qed.

Lemma model_init_ok (input hidden output n : Z) (g : rng_state) :
  (0 <= hidden)%Z -> (0 <= output)%Z -> (n <= 0 \/ 0 <= input)%Z ->
  exists m g',
    BayesianModel.init input hidden output n g = (inr m, g')
    /\ length (BayesianModel.layers m) = Z.to_nat n
    /\ model_wf (Z.to_nat (if (1 <=? n)%Z then input else hidden))
         (Z.to_nat output) m.
Proof.
  intros Hh Ho Hn. rewrite model_init_unfold.
  destruct (Z.leb_spec 1 n) as [Hn1|Hn0].
  - assert (Hi : (0 <= input)%Z) by lia.
    destruct (init_layers_ok input hidden n g Hi Hh Hn1)
      as [ls [g1 [Hls [Cls [Lls Nls]]]]].
    destruct (layer_init_ok hidden output g1 Hh Ho) as [l [g2 [Hl [Wl _]]]].
    exists (BayesianModel.mk ls l), g2. unfold bind at 1. rewrite Hls.
    unfold bind at 1. rewrite Hl. unfold ret. repeat split.
    + exact Lls.
    + exists (Z.to_nat hidden). now split.
  - destruct (layer_init_ok hidden output g Hh Ho) as [l [g2 [Hl [Wl _]]]].
    exists (BayesianModel.mk [] l), g2.
    rewrite range_nonpos by lia. cbn [for_each]. rewrite bind_ret_l.
    unfold bind at 1. rewrite Hl. unfold ret. repeat split.
    + simpl. lia.
    + exists (Z.to_nat hidden). now split.
Qed.

Lemma model_init_negative (input hidden output n : Z) (g : rng_state) :
  (hidden < 0 \/ output < 0 \/ (1 <= n /\ input < 0))%Z ->
  fst (BayesianModel.init input hidden output n g) = inl RuntimeError.
Proof.
  intros H. rewrite model_init_unfold.
  destruct (Z.leb_spec 1 n) as [Hn1|Hn0].
  - destruct (Z.ltb_spec input 0) as [Hi|Hi];
      [|destruct (Z.ltb_spec hidden 0) as [Hh|Hh]].
    + rewrite (range_pos n Hn1). cbn [for_each]. unfold bind at 1. unfold bind at 1.
      unfold init_body at 1. simpl Z.eqb. cbv iota. unfold bind at 1.
      now rewrite layer_init_negative by lia.
    + rewrite (range_pos n Hn1). cbn [for_each]. unfold bind at 1. unfold bind at 1.
      unfold init_body at 1. simpl Z.eqb. cbv iota. unfold bind at 1.
      now rewrite layer_init_negative by lia.
    + destruct (init_layers_ok input hidden n g Hi Hh Hn1)
        as [ls [g1 [Hls _]]].
      unfold bind at 1. rewrite Hls. unfold bind at 1.
      now rewrite layer_init_negative by lia.
  - rewrite range_nonpos by lia. cbn [for_each]. rewrite bind_ret_l.
    unfold bind at 1. now rewrite layer_init_negative by lia.
Qed.

(** ** Enclosure of exp (-5) *)

Lemma fx_scale_pos : (0 < fx_scale)%Z.
Proof. reflexivity. Qed.

Lemma fx_sq_down_sound (l : Z) (e : R) :
  (0 <= l)%Z -> IZR l <= IZR fx_scale * e ->
  (0 <= fx_sq_down l)%Z /\ IZR (fx_sq_down l) <= IZR fx_scale * (e * e).
Proof.
  intros Hl He. unfold fx_sq_down.
  pose proof fx_scale_pos as HS.
  assert (H0 : (0 <= l * l / fx_scale)%Z) by (apply Z.div_pos; nia).
  split; [exact H0|].
  assert (Hm : (fx_scale * (l * l / fx_scale) <= l * l)%Z)
    by (apply Z.mul_div_le; exact HS).
  apply IZR_le in Hm. rewrite !mult_IZR in Hm.
  apply IZR_le in Hl. apply IZR_lt in HS.
  set (q := IZR (l * l / fx_scale)) in *. set (s := IZR fx_scale) in *.
  set (a := IZR l) in *.
  assert (a * a <= (s * e) * (s * e)) by nra.
  assert (s * q <= s * (s * (e * e))) by nra.
  apply Rmult_le_reg_l with s; assumption.
Qed.

Lemma fx_sq_up_sound (u : Z) (e : R) :
  0 <= e -> IZR fx_scale * e <= IZR u ->
  IZR fx_scale * (e * e) <= IZR (fx_sq_up u).
Proof.
  intros He Hu. unfold fx_sq_up.
  pose proof fx_scale_pos as HS.
  assert (Hm : (u * u <= fx_scale * ((u * u + (fx_scale - 1)) / fx_scale))%Z).
  { pose proof (Z.div_mod (u * u + (fx_scale - 1)) fx_scale ltac:(lia)) as Hd.
    pose proof (Z.mod_pos_bound (u * u + (fx_scale - 1)) fx_scale HS). lia. }
  apply IZR_le in Hm. rewrite !mult_IZR in Hm.
  apply IZR_lt in HS.
  set (q := IZR ((u * u + (fx_scale - 1)) / fx_scale)) in *.
  set (s := IZR fx_scale) in *. set (a := IZR u) in *.
  assert (0 <= s * e) by nra.
  assert ((s * e) * (s * e) <= a * a) by nra.
  assert (s * (s * (e * e)) <= s * q) by nra.
  apply Rmult_le_reg_l with s; assumption.
Qed.

Lemma exp_double (x : R) : exp (2 * x) = exp x * exp x.
Proof. rewrite <- exp_plus. f_equal. ring. Qed.

Lemma fx_iter_down (k : nat) (l : Z) (x : R) :
  (0 <= l)%Z -> IZR l <= IZR fx_scale * exp x ->
  (0 <= Nat.iter k fx_sq_down l)%Z
  /\ IZR (Nat.iter k fx_sq_down l) <= IZR fx_scale * exp (2 ^ k * x).
Proof.
  intros Hl He. induction k as [|k [IH0 IH]].
  - simpl. now rewrite Rmult_1_l.
  - cbn [Nat.iter nat_rect].
    destruct (fx_sq_down_sound _ _ IH0 IH) as [H0 H1]. split; [exact H0|].
    replace (2 ^ S k * x) with (2 * (2 ^ k * x)) by (simpl; ring).
    now rewrite exp_double.
Qed.

Lemma fx_iter_up (k : nat) (u : Z) (x : R) :
  IZR fx_scale * exp x <= IZR u ->
  IZR fx_scale * exp (2 ^ k * x) <= IZR (Nat.iter k fx_sq_up u).
Proof.
  intros He. induction k as [|k IH].
  - simpl. now rewrite Rmult_1_l.
  - cbn [Nat.iter nat_rect].
    replace (2 ^ S k * x) with (2 * (2 ^ k * x)) by (simpl; ring).
    rewrite exp_double. apply fx_sq_up_sound; [|exact IH].
    left. apply exp_pos.
Qed.

Lemma pow2_20 : 2 ^ 20 * (-5 / 1048576) = -5.
Proof. simpl. lra. Qed.

Lemma exp_m5_enclosure :
  IZR fx_lo <= IZR fx_scale * exp (-5) <= IZR fx_hi.
Proof.
  rewrite <- pow2_20. split.
  - apply fx_iter_down.
    + vm_compute. discriminate.
    + pose proof (exp_ineq1_le (-5 / 1048576)) as H.
      assert (Hs : IZR fx_lo0 <= IZR fx_scale * (1 + -5 / 1048576)).
      { replace fx_lo0 with 999995231628417%Z by (vm_compute; reflexivity).
        replace fx_scale with 1000000000000000%Z by (vm_compute; reflexivity).
        lra. }
      assert (0 < IZR fx_scale) by (apply IZR_lt; reflexivity). nra.
  - apply fx_iter_up.
    assert (Hx : exp (-5 / 1048576) <= / (1 + 5 / 1048576)).
    { replace (-5 / 1048576) with (- (5 / 1048576)) by lra.
      rewrite exp_Ropp. apply Rinv_le_contravar; [lra|].
      apply exp_ineq1_le. }
    assert (Hs : IZR fx_scale * / (1 + 5 / 1048576) <= IZR fx_hi0).
    { replace fx_hi0 with 999995231651156%Z by (vm_compute; reflexivity).
      replace fx_scale with 1000000000000000%Z by (vm_compute; reflexivity).
      apply Rmult_le_reg_r with (1 + 5 / 1048576); [lra|].
      rewrite Rmult_assoc, Rinv_l by lra. lra. }
    assert (0 < IZR fx_scale) by (apply IZR_lt; reflexivity). nra.
Qed.

Lemma exp_m5_bounds : 0.006737 < exp (-5) < 0.006739.
Proof.
  pose proof exp_m5_enclosure as [Hlo Hhi].
  replace fx_lo with 6737866667156%Z in Hlo by (vm_compute; reflexivity).
  replace fx_hi with 6738027333149%Z in Hhi by (vm_compute; reflexivity).
  replace fx_scale with 1000000000000000%Z in * by (vm_compute; reflexivity).
  lra.
Qed.

(** ** Elements of the layer output *)

Lemma nth_map_seq {B} (f : nat -> B) (n k : nat) (d : B) :
  (k < n)%nat -> nth k (map f (seq 0 n)) d = f k.
Proof.
  intros Hk. rewrite (nth_indep _ d (f 0%nat)) by now rewrite length_map, length_seq.
  rewrite map_nth. now rewrite seq_nth.
Qed.

Lemma affine_rows_nth (rows i o r c : nat) (x w b : list R) :
  (r < rows)%nat -> (c < o)%nat ->
  nth (r * o + c) (affine_rows rows i o x w b) 0
  = Rsum (map (fun j => nth (r * i + j) x 0 * nth (c * i + j) w 0) (seq 0 i))
    + nth c b 0.
Proof.
  intros Hr Hc. unfold affine_rows.
  rewrite (nth_flat_map_regular _ _ o r c 0%nat);
    [|intros a _; now rewrite length_map, length_seq|exact Hc
     |now rewrite length_seq].
  rewrite seq_nth by exact Hr. simpl Nat.add.
  now rewrite nth_map_seq.
Qed.

Lemma draws_nth (g : rng_state) (n k : nat) :
  (k < n)%nat -> nth k (draws g n) 0 = noise g (cursor g + k).
Proof. intros Hk. unfold draws. now rewrite nth_map_seq. Qed.

Lemma draws_length (g : rng_state) (n : nat) : length (draws g n) = n.
Proof. unfold draws. now rewrite length_map, length_seq. Qed.

Lemma combine_nth_lt {A B} (l1 : list A) (l2 : list B) (k : nat) (a : A) (b : B) :
  (k < length l1)%nat -> (k < length l2)%nat ->
  nth k (combine l1 l2) (a, b) = (nth k l1 a, nth k l2 b).
Proof.
  revert l2 k. induction l1 as [|a1 l1 IH]; intros [|b1 l2] [|k] H1 H2;
    simpl in *; try lia; try reflexivity.
  apply IH; lia.
Qed.

Lemma reparam_nth (mu ls : tensor) (eps : list R) (k : nat) :
  (k < length (data mu))%nat -> (k < length (data ls))%nat ->
  (k < length eps)%nat ->
  nth k (data (reparam mu ls eps)) 0
  = nth k (data mu) 0 + exp (nth k (data ls) 0) * nth k eps 0.
Proof.
  intros H1 H2 H3. unfold reparam. cbn [data].
  set (f := fun p : R * R * R => fst (fst p) + exp (snd (fst p)) * snd p).
  assert (Hlen : (k < length (combine (combine (data mu) (data ls)) eps))%nat).
  { rewrite !length_combine. lia. }
  rewrite (nth_indep _ 0 (f (0, 0, 0))) by now rewrite length_map.
  rewrite map_nth.
  rewrite combine_nth_lt by (rewrite ?length_combine; lia).
  rewrite combine_nth_lt by lia. reflexivity.
Qed.

Lemma draws_ext (g1 g2 : rng_state) (a n : nat) :
  (forall k, (k < a + n)%nat -> noise g2 (cursor g2 + k) = noise g1 (cursor g1 + k)) ->
  draws (advance g2 a) n = draws (advance g1 a) n.
Proof.
  intros H. unfold draws, advance. cbn [noise cursor].
  apply map_ext_in. intros k Hk. apply in_seq in Hk.
  rewrite <- !Nat.add_assoc. apply H. lia.
Qed.

Lemma draws_ext0 (g1 g2 : rng_state) (n : nat) :
  (forall k, (k < n)%nat -> noise g2 (cursor g2 + k) = noise g1 (cursor g1 + k)) ->
  draws g2 n = draws g1 n.
Proof.
  intros H. unfold draws. apply map_ext_in. intros k Hk. apply in_seq in Hk.
  apply H. lia.
Qed.

Lemma layer_forward_elements (i o : nat) (l : BnnLayer.t) (x : tensor)
      (lead : list nat) (g : rng_state) :
  BnnLayer.wf i o l -> shape x = lead ++ [i] ->
  exists y,
    BnnLayer.forward l x g = (inr y, advance g (o * i + o))
    /\ shape y = lead ++ [o]
    /\ (forall r c, (r < numel lead)%nat -> (c < o)%nat ->
          nth (r * o + c) (data y) 0
          = Rsum (map (fun j =>
                         nth (r * i + j) (data x) 0
                         * (nth (c * i + j) (data (BnnLayer.weight_mu l)) 0
                            + exp (nth (c * i + j) (data (BnnLayer.weight_std l)) 0)
                              * noise g (cursor g + (c * i + j))))
                    (seq 0 i))
            + (nth c (data (BnnLayer.bias_mu l)) 0
               + exp (nth c (data (BnnLayer.bias_std l)) 0)
                 * noise g (cursor g + (o * i + c))))
    /\ (forall g2,
          (forall k, (k < o * i + o)%nat ->
                     noise g2 (cursor g2 + k) = noise g (cursor g + k)) ->
          fst (BnnLayer.forward l x g2) = inr y).
Proof.
  intros Hwf Hx.
  pose proof (layer_forward_eq i o l x g Hwf) as Heq.
  destruct Hwf as [Hwm Hws Hbm Hbs Dwm Dws Dbm Dbs].
  assert (Nw : numel (shape (BnnLayer.weight_mu l)) = (o * i)%nat)
    by (rewrite Hwm; simpl; lia).
  assert (Nb : numel (shape (BnnLayer.bias_mu l)) = o)
    by (rewrite Hbm; simpl; lia).
  unfold layer_forward_spec in Heq. rewrite Nw, Nb in Heq.
  rewrite (linear_ok _ _ _ lead i o) in Heq by (simpl; assumption).
  eexists. split; [exact Heq|]. split; [reflexivity|]. split.
  - intros r c Hr Hc. cbn [data]. rewrite affine_rows_nth by assumption.
    unfold wf_tensor in *.
    assert (Lwm : length (data (BnnLayer.weight_mu l)) = (o * i)%nat) by congruence.
    assert (Lws : length (data (BnnLayer.weight_std l)) = (o * i)%nat)
      by (rewrite Dws, Hws; simpl; lia).
    assert (Lbm : length (data (BnnLayer.bias_mu l)) = o) by congruence.
    assert (Lbs : length (data (BnnLayer.bias_std l)) = o)
      by (rewrite Dbs, Hbs; simpl; lia).
    f_equal.
    + apply (f_equal Rsum). apply map_ext_in. intros j Hj. apply in_seq in Hj.
      assert (Hk : (c * i + j < o * i)%nat) by nia.
      rewrite reparam_nth by (rewrite ?draws_length; lia).
      now rewrite draws_nth.
    + rewrite reparam_nth by (rewrite ?draws_length; lia).
      rewrite draws_nth by exact Hc. cbn [advance noise cursor].
      now rewrite Nat.add_assoc.
  - intros g2 Hg2.
    rewrite (layer_forward_eq i o l x g2
               (BnnLayer.Build_wf i o l Hwm Hws Hbm Hbs Dwm Dws Dbm Dbs)).
    unfold layer_forward_spec. rewrite Nw, Nb. cbn [fst].
    rewrite (draws_ext0 g g2 (o * i)) by (intros k Hk; apply Hg2; lia).
    rewrite (draws_ext g g2 (o * i) o) by exact Hg2.
    now rewrite (linear_ok _ _ _ lead i o) by (simpl; assumption).
Qed.

(** ** Claims *)

(** The concrete layers and network are well formed. *)
Lemma example_hidden_wf : BnnLayer.wf 2 1 example_hidden.
Proof. constructor; reflexivity. Defined.

Lemma example_output_wf : BnnLayer.wf 1 1 example_output.
Proof. constructor; reflexivity. Defined.

Lemma example_model_wf : model_wf 2 1 example_model.
Proof.
  exists 1%nat. split.
  - exists 1%nat. split; [exact example_hidden_wf|reflexivity].
  - exact example_output_wf.
Defined.

(** Two generator states on which the same layer and input give different
    outputs. *)
Lemma forward_may_differ :
  fst (BnnLayer.forward example_output example_x1 (rng_const 0))
  <> fst (BnnLayer.forward example_output example_x1 (rng_const 1)).
Proof.
  destruct (layer_forward_elements 1 1 _ example_x1 [1%nat] (rng_const 0)
              example_output_wf eq_refl) as [y0 [H0 [_ [E0 _]]]].
  destruct (layer_forward_elements 1 1 _ example_x1 [1%nat] (rng_const 1)
              example_output_wf eq_refl) as [y1 [H1 [_ [E1 _]]]].
  rewrite H0, H1. cbn [fst]. intros H. injection H as ->.
  specialize (E0 0%nat 0%nat ltac:(simpl; lia) ltac:(lia)).
  specialize (E1 0%nat 0%nat ltac:(simpl; lia) ltac:(lia)).
  rewrite E0 in E1. simpl in E1. rewrite exp_0 in E1. lra.
Qed.

(** C2. For every layer, [kl_divergence()] returns the closed form: the sum
    over all elements of weight and bias of [0.5 * (mu / exp log_sigma)^2],
    the divergence from [Normal(mu, exp log_sigma)] to the zero-mean prior of
    the same standard deviation; its type shows that it reads no random
    draw. *)
Theorem layer_kl_closed_form_correct (i o : nat) (l : BnnLayer.t) :
  BnnLayer.wf i o l ->
  BnnLayer.kl_divergence l
  = inr (Rsum (map2 (fun mu log_sigma => 1 / 2 * (mu / exp log_sigma) ^ 2)
                 (data (BnnLayer.weight_mu l)) (data (BnnLayer.weight_std l)))
         + Rsum (map2 (fun mu log_sigma => 1 / 2 * (mu / exp log_sigma) ^ 2)
                   (data (BnnLayer.bias_mu l)) (data (BnnLayer.bias_std l)))).
Proof. intros H. exact (layer_kl_closed i o l H). Qed.

Lemma layer_kl_closed_form_correct_witness :
  BnnLayer.kl_divergence example_hidden
  = inr (Rsum [1 / 2 * (1 / exp 0) ^ 2; 1 / 2 * (-1 / exp 0) ^ 2]
         + Rsum [1 / 2 * (0 / exp 0) ^ 2]).
Proof. exact (layer_kl_closed_form_correct 2 1 example_hidden example_hidden_wf). Defined.



(** C6. For every network, the network-level KL divergence is the sum of
    [kl_divergence()] over the hidden layers plus the output layer's
    [kl_divergence()]. *)
Theorem model_kl_is_sum (input output : nat) (m : BayesianModel.t) :
  model_wf input output m ->
  exists ks k,
    Forall2 (fun l kl => BnnLayer.kl_divergence l = inr kl)
      (BayesianModel.layers m) ks
    /\ BnnLayer.kl_divergence (BayesianModel.output_layer m) = inr k
    /\ BayesianModel.kl_divergence m = inr (Rsum ks + k).
Proof.
  intros Hwf. pose proof (model_kl_closed input output m Hwf) as Hm.
  destruct Hwf as [h [Hc Ho]].
  exists (map layer_kl_closed_form (BayesianModel.layers m)),
         (layer_kl_closed_form (BayesianModel.output_layer m)).
  split; [exact (chain_kl _ _ _ Hc)|].
  split; [exact (layer_kl_closed h output _ Ho)|exact Hm].
Qed.

Lemma model_kl_is_sum_witness :
  exists ks k,
    Forall2 (fun l kl => BnnLayer.kl_divergence l = inr kl) [example_hidden] ks
    /\ BnnLayer.kl_divergence example_output = inr k
    /\ BayesianModel.kl_divergence example_model = inr (Rsum ks + k).
Proof. exact (model_kl_is_sum 2 1 example_model example_model_wf). Defined.

(** C7. The network's forward pass applies each hidden layer followed by the
    rectified-linear nonlinearity [max(0, .)], in sequence, and then the
    output layer with nothing after it. *)
Theorem model_forward_structure :
  (forall out x g,
      BayesianModel.forward (BayesianModel.mk [] out) x g
      = BnnLayer.forward out x g)
  /\ (forall l ls out x g,
         BayesianModel.forward (BayesianModel.mk (l :: ls) out) x g
         = (h <- BnnLayer.forward l x;;
            BayesianModel.forward (BayesianModel.mk ls out) (relu h)) g)
  /\ (forall m x g,
         BayesianModel.forward m x g
         = network_spec (BayesianModel.layers m) (BayesianModel.output_layer m) x g)
  /\ (forall t, shape (relu t) = shape t
                /\ data (relu t) = map (fun v => Rmax 0 v) (data t)).
Proof.
  split; [|split; [|split]].
  - intros out x g. now rewrite model_forward_spec.
  - intros l ls out x g. rewrite model_forward_spec. cbn [network_spec].
    unfold bind. destruct (BnnLayer.forward l x g) as [[e|h] g1]; [reflexivity|].
    now rewrite model_forward_spec.
  - intros [ls out] x g. apply model_forward_spec.
  - intros t. split; reflexivity.
Qed.



(** C3, as the code has it.  Construction validates nothing itself: a layer
    fails, with the tensor library's error at its first allocation and
    before any random draw, exactly when a size is negative; a network
    fails, with the same error, exactly when [hidden_size] or [output_size]
    is negative or [input_size] is negative and a hidden layer is built.
    Sizes of zero and [num_layers < 1] are accepted. *)
Theorem construction_errors :
  (forall i o g, (i < 0 \/ o < 0)%Z ->
                 BnnLayer.init i o g = (inl RuntimeError, g))
  /\ (forall i o g, (0 <= i)%Z -> (0 <= o)%Z ->
                    exists l g', BnnLayer.init i o g = (inr l, g'))
  /\ (forall input hidden output n g,
         (hidden < 0 \/ output < 0 \/ (1 <= n /\ input < 0))%Z ->
         fst (BayesianModel.init input hidden output n g) = inl RuntimeError)
  /\ (forall input hidden output n g,
         (0 <= hidden)%Z -> (0 <= output)%Z -> (n <= 0 \/ 0 <= input)%Z ->
         exists m g',
           BayesianModel.init input hidden output n g = (inr m, g')
           /\ length (BayesianModel.layers m) = Z.to_nat n).
Proof.
  split; [|split; [|split]].
  - apply layer_init_negative.
  - intros i o g Hi Ho.
    destruct (layer_init_ok i o g Hi Ho) as [l [g' [H _]]]. now exists l, g'.
  - apply model_init_negative.
  - intros input hidden output n g Hh Ho Hn.
    destruct (model_init_ok input hidden output n g Hh Ho Hn)
      as [m [g' [H [L _]]]].
    now exists m, g'.
Qed.

Lemma construction_errors_witness :
  BnnLayer.init (-1) 3 (rng_const 0) = (inl RuntimeError, rng_const 0)
  /\ (exists l g', BnnLayer.init 0 3 (rng_const 0) = (inr l, g'))
  /\ fst (BayesianModel.init 4 8 (-1) 2 (rng_const 0)) = inl RuntimeError
  /\ (exists m g',
         BayesianModel.init 4 8 1 0 (rng_const 0) = (inr m, g')
         /\ length (BayesianModel.layers m) = Z.to_nat 0).
Proof.
  destruct construction_errors as [H1 [H2 [H3 H4]]].
  split; [|split; [|split]].
  - apply H1. left. reflexivity.
  - apply H2; discriminate.
  - apply H3. right. left. reflexivity.
  - apply H4; try discriminate. left. discriminate.
Defined.

(** A layer with no output, a layer with no input and a network with
    [num_layers = 0] are all constructed. *)
Lemma construction_accepts_zero_sizes :
  is_ok (fst (BnnLayer.init 3 0 (rng_const 0))) = true
  /\ is_ok (fst (BnnLayer.init 0 3 (rng_const 0))) = true
  /\ is_ok (fst (BayesianModel.init 4 8 1 0 (rng_const 0))) = true.
Proof. repeat split. Qed.

(** C4, as the code has it.  A layer's forward on an input whose trailing
    dimension differs from [in_features] fails in the affine transform and
    returns no result.  [elbo_loss] never compares the leading dimensions of
    [x] and [y]: the target is checked against the prediction's shape
    [(N, output_size)] by broadcasting, so the call fails, in the
    distribution's sample validation, exactly when the two shapes do not
    broadcast. *)
Theorem shape_errors :
  (forall i o l x g,
      BnnLayer.wf i o l -> trailing (shape x) <> Some i ->
      fst (BnnLayer.forward l x g) = inl RuntimeError)
  /\ (forall input output m x y lead n g,
         model_wf input output m -> shape x = lead ++ [input] -> (0 < n)%nat ->
         broadcastable (shape y) (lead ++ [output]) = false ->
         fst (BayesianModel.elbo_loss m x y (Z.of_nat n) g) = inl ValueError)
  /\ (forall input output m x y lead n g,
         model_wf input output m -> shape x = lead ++ [input] -> (0 < n)%nat ->
         broadcastable (shape y) (lead ++ [output]) = true ->
         is_ok (fst (BayesianModel.elbo_loss m x y (Z.of_nat n) g)) = true).
Proof.
  split; [|split].
  - apply layer_forward_mismatch.
  - apply elbo_loss_not_broadcastable.
  - intros input output m x y lead n g Hwf Hx Hn Hb.
    apply broadcastable_iff in Hb. destruct Hb as [bs Hb].
    destruct (elbo_loss_ok input output m x y lead bs n g Hwf Hx Hn Hb)
      as [K [outs [g' [_ [_ [_ He]]]]]].
    now rewrite He.
Qed.

Lemma shape_errors_witness :
  fst (BnnLayer.forward example_hidden example_x_wide (rng_const 0))
  = inl RuntimeError
  /\ fst (BayesianModel.elbo_loss example_model example_x example_y_long 10
            (rng_const 0)) = inl ValueError
  /\ is_ok (fst (BayesianModel.elbo_loss example_model example_x example_y 10
                   (rng_const 0))) = true.
Proof.
  destruct shape_errors as [H1 [H2 H3]]. split; [|split].
  - apply (H1 2%nat 1%nat); [exact example_hidden_wf|discriminate].
  - apply (H2 2%nat 1%nat example_model example_x example_y_long [2%nat] 10%nat);
      [exact example_model_wf|reflexivity|apply Nat.lt_0_succ|reflexivity].
  - apply (H3 2%nat 1%nat example_model example_x example_y [2%nat] 10%nat);
      [exact example_model_wf|reflexivity|apply Nat.lt_0_succ|reflexivity].
Defined.

(** A target with one row against a batch of two rows: the loss is
    returned. *)
Lemma elbo_accepts_broadcast_target :
  hd 0%nat (shape example_y_row) <> hd 0%nat (shape example_x)
  /\ is_ok (fst (BayesianModel.elbo_loss example_model example_x example_y_row
                   10 (rng_const 0))) = true.
Proof.
  split; [discriminate|].
  destruct (elbo_loss_ok 2 1 example_model example_x example_y_row [2%nat]
              [2; 1]%nat 10 (rng_const 0) example_model_wf eq_refl
              (Nat.lt_0_succ 9) eq_refl) as [K [outs [g' [_ [_ [_ He]]]]]].
  change 10%Z with (Z.of_nat 10). now rewrite He.
Qed.

(** C8. With the random source as an explicit generator state, a layer's
    forward computes [x @ (mu_w + exp(log_sigma_w) * eps_w)^T
    + (mu_b + exp(log_sigma_b) * eps_b)], [eps_w] and [eps_b] being the next
    draws of the generator, consumed by the call.  Two calls on the same
    input from generator states that produce the same draws give the same
    output; calls from different states may differ. *)
Theorem layer_forward_reparameterized :
  (forall i o l x lead g,
      BnnLayer.wf i o l -> shape x = lead ++ [i] ->
      exists y,
        BnnLayer.forward l x g = (inr y, advance g (o * i + o))
        /\ shape y = lead ++ [o]
        /\ (forall r c, (r < numel lead)%nat -> (c < o)%nat ->
              nth (r * o + c) (data y) 0
              = Rsum (map (fun j =>
                        nth (r * i + j) (data x) 0
                        * (nth (c * i + j) (data (BnnLayer.weight_mu l)) 0
                           + exp (nth (c * i + j) (data (BnnLayer.weight_std l)) 0)
                             * noise g (cursor g + (c * i + j))))
                        (seq 0 i))
                + (nth c (data (BnnLayer.bias_mu l)) 0
                   + exp (nth c (data (BnnLayer.bias_std l)) 0)
                     * noise g (cursor g + (o * i + c))))
        /\ (forall g2,
              (forall k, (k < o * i + o)%nat ->
                         noise g2 (cursor g2 + k) = noise g (cursor g + k)) ->
              fst (BnnLayer.forward l x g2) = inr y))
  /\ (exists l x g1 g2,
         fst (BnnLayer.forward l x g1) <> fst (BnnLayer.forward l x g2)).
Proof.
  split.
  - apply layer_forward_elements.
  - exists example_output, example_x1, (rng_const 0), (rng_const 1).
    exact forward_may_differ.
Qed.

Lemma layer_forward_reparameterized_witness :
  exists y,
    BnnLayer.forward example_hidden example_x (rng_const 0)
    = (inr y, advance (rng_const 0) (1 * 2 + 1))
    /\ shape y = [2; 1]%nat.
Proof.
  destruct (proj1 layer_forward_reparameterized 2%nat 1%nat example_hidden
              example_x [2%nat] (rng_const 0) example_hidden_wf eq_refl)
    as [y [H [S _]]].
  exists y. split; assumption.
Defined.

Lemma kaiming_std_sq (n : nat) : (0 < n)%nat -> kaiming_std n ^ 2 = 2 / INR n.
Proof.
  intros Hn. unfold kaiming_std.
  assert (Hp : 0 < INR n) by now apply lt_0_INR.
  assert (Hs : 0 < sqrt (INR n)) by now apply sqrt_lt_R0.
  replace ((sqrt 2 / sqrt (INR n)) ^ 2)
    with ((sqrt 2 * sqrt 2) / (sqrt (INR n) * sqrt (INR n)))
    by (field; lra).
  rewrite !sqrt_sqrt by lra. reflexivity.
Qed.

Lemma Forall_map_exp (c : R) (l : list R) :
  Forall (eq c) l -> Forall (eq (exp c)) (map exp l).
Proof.
  induction 1 as [|v l Hv _ IH]; simpl; constructor; [now subst v|exact IH].
Qed.

(** C9. Right after construction every element of both [log_sigma] tensors
    is [-5.0], so every standard deviation [exp(log_sigma)] is [exp(-5)],
    about 0.00674; the weight mean is a fan-in-scaled normal fill: standard
    normal draws times a factor whose square is [2 / in_features]. *)
Theorem layer_init_parameters (i o : Z) (g : rng_state) :
  (0 <= i)%Z -> (0 <= o)%Z ->
  exists l g',
    BnnLayer.init i o g = (inr l, g')
    /\ shape (BnnLayer.weight_std l) = [Z.to_nat o; Z.to_nat i]
    /\ shape (BnnLayer.bias_std l) = [Z.to_nat o]
    /\ length (data (BnnLayer.weight_std l)) = (Z.to_nat o * Z.to_nat i)%nat
    /\ length (data (BnnLayer.bias_std l)) = Z.to_nat o
    /\ Forall (eq (-5)) (data (BnnLayer.weight_std l))
    /\ Forall (eq (-5)) (data (BnnLayer.bias_std l))
    /\ Forall (eq (exp (-5))) (data (texp (BnnLayer.weight_std l)))
    /\ Forall (eq (exp (-5))) (data (texp (BnnLayer.bias_std l)))
    /\ Rabs (exp (-5) - 0.00674) < 0.00001
    /\ ((0 < i)%Z -> (0 < o)%Z ->
        data (BnnLayer.weight_mu l)
        = map (fun e => 0 + kaiming_std (Z.to_nat i) * e)
            (draws g (Z.to_nat o * Z.to_nat i))
        /\ kaiming_std (Z.to_nat i) ^ 2 = 2 / INR (Z.to_nat i)).
Proof.
  intros Hi Ho.
  destruct (layer_init_ok i o g Hi Ho)
    as [l [g' [H [W [_ [Fw [Fb [_ Hmu]]]]]]]].
  exists l, g'. destruct W as [Hwm Hws Hbm Hbs Dwm Dws Dbm Dbs].
  unfold wf_tensor in *.
  split; [exact H|]. split; [exact Hws|]. split; [exact Hbs|].
  split; [rewrite Dws, Hws; simpl; lia|].
  split; [rewrite Dbs, Hbs; simpl; lia|].
  split; [exact Fw|]. split; [exact Fb|].
  split; [now apply Forall_map_exp|]. split; [now apply Forall_map_exp|].
  split.
  - pose proof exp_m5_bounds. apply Rabs_def1; lra.
  - intros Hi0 Ho0. destruct (Hmu Hi0 Ho0) as [Hd _].
    split; [exact Hd|]. apply kaiming_std_sq. lia.
Qed.

Lemma layer_init_parameters_witness :
  exists l g',
    BnnLayer.init 4 8 (rng_const 0) = (inr l, g')
    /\ Forall (eq (-5)) (data (BnnLayer.weight_std l))
    /\ Forall (eq (-5)) (data (BnnLayer.bias_std l)).
Proof.
  destruct (layer_init_parameters 4 8 (rng_const 0)
              ltac:(discriminate) ltac:(discriminate))
    as [l [g' [H [_ [_ [_ [_ [Fw [Fb _]]]]]]]]].
  exists l, g'. repeat split; assumption.
Defined.

(** C10. A layer's forward on an input whose last dimension is
    [in_features] returns a tensor of the input's shape with the last
    dimension replaced by [out_features], the leading dimensions unchanged;
    the network's forward on an input of shape [(n, input_size)] returns
    shape [(n, output_size)]. *)
Theorem forward_shapes :
  (forall i o l x lead g,
      BnnLayer.wf i o l -> shape x = lead ++ [i] ->
      exists y g', BnnLayer.forward l x g = (inr y, g')
                   /\ shape y = lead ++ [o])
  /\ (forall input output m x n g,
         model_wf input output m -> shape x = [n; input] ->
         exists y g', BayesianModel.forward m x g = (inr y, g')
                      /\ shape y = [n; output])
  /\ (forall input hidden output num_layers g0 m g1,
         (0 <= input)%Z -> (0 <= hidden)%Z -> (0 <= output)%Z ->
         (1 <= num_layers)%Z ->
         BayesianModel.init input hidden output num_layers g0 = (inr m, g1) ->
         forall x n g,
           shape x = [n; Z.to_nat input] ->
           exists y g', BayesianModel.forward m x g = (inr y, g')
                        /\ shape y = [n; Z.to_nat output]).
Proof.
  split; [|split].
  - intros i o l x lead g Hwf Hx.
    destruct (layer_forward_ok i o l x lead g Hwf Hx) as [y [H [S _]]].
    now exists y, (advance g (o * i + o)).
  - intros input output m x n g Hwf Hx.
    destruct (model_forward_ok input output m x [n] g Hwf Hx)
      as [y [g' [H [S _]]]].
    now exists y, g'.
  - intros input hidden output nl g0 m g1 Hi Hh Ho Hn Hinit x n g Hx.
    destruct (model_init_ok input hidden output nl g0 Hh Ho (or_intror Hi))
      as [m' [g' [H' [_ Hwf]]]].
    rewrite Hinit in H'. injection H' as <- <-.
    destruct (Z.leb_spec 1 nl) as [_|Hlt]; [|lia].
    destruct (model_forward_ok _ _ m x [n] g Hwf Hx) as [y [g2 [Hy [Sy _]]]].
    now exists y, g2.
Qed.

Lemma forward_shapes_witness :
  (exists y g', BnnLayer.forward example_hidden example_x (rng_const 0) = (inr y, g')
                /\ shape y = [2; 1]%nat)
  /\ (exists y g', BayesianModel.forward example_model example_x (rng_const 0)
                   = (inr y, g')
                   /\ shape y = [2; 1]%nat).
Proof.
  destruct forward_shapes as [H1 [H2 _]]. split.
  - exact (H1 2%nat 1%nat example_hidden example_x [2%nat] (rng_const 0)
             example_hidden_wf eq_refl).
  - exact (H2 2%nat 1%nat example_model example_x 2%nat (rng_const 0)
             example_model_wf eq_refl).
Defined.

(** ** Draws read by the forward passes *)

Lemma layer_draws_wf (i o : nat) (l : BnnLayer.t) :
  BnnLayer.wf i o l -> layer_draws l = (o * i + o)%nat.
Proof.
  intros [Hwm _ Hbm _ _ _ _ _]. unfold layer_draws. rewrite Hwm, Hbm. simpl. lia.
Qed.

Lemma layer_forward_state (i o : nat) (l : BnnLayer.t) (x : tensor)
      (g : rng_state) :
  BnnLayer.wf i o l -> snd (BnnLayer.forward l x g) = advance g (layer_draws l).
Proof.
  intros Hwf. now rewrite (layer_forward_eq i o l x g Hwf).
Qed.

Lemma hidden_pass_draws (ls : list BnnLayer.t) (i h : nat) (x : tensor)
      (lead : list nat) (g : rng_state) :
  chain i ls h -> shape x = lead ++ [i] ->
  exists y,
    for_each ls (fun layer x => y <- BnnLayer.forward layer x;; ret (relu y)) x g
    = (inr y, advance g (fold_right (fun l acc => (layer_draws l + acc)%nat) 0%nat ls))
    /\ shape y = lead ++ [h].
Proof.
  revert i x g. induction ls as [|l ls IH]; intros i x g Hc Hx; simpl in Hc.
  - subst h. exists x. simpl. unfold ret, advance.
    rewrite Nat.add_0_r. destruct g. now split.
  - destruct Hc as [k [Hwf Hc]].
    destruct (layer_forward_ok i k l x lead g Hwf Hx) as [y [Hy [Sy Wy]]].
    destruct (IH k (relu y) (advance g (k * i + k)) Hc Sy) as [z [Hz Sz]].
    exists z. split; [|exact Sz].
    cbn [for_each fold_right]. unfold bind at 1. unfold bind at 1. rewrite Hy.
    unfold ret at 1. rewrite Hz, advance_advance.
    now rewrite (layer_draws_wf i k l Hwf).
Qed.

Lemma fold_draws_shift (ls : list BnnLayer.t) (b : nat) :
  fold_right (fun l acc => (layer_draws l + acc)%nat) b ls
  = (fold_right (fun l acc => (layer_draws l + acc)%nat) 0%nat ls + b)%nat.
Proof. induction ls as [|l ls IH]; simpl; [reflexivity|]. rewrite IH. lia. Qed.

Lemma model_forward_draws (input output : nat) (m : BayesianModel.t) (x : tensor)
      (lead : list nat) (g : rng_state) :
  model_wf input output m -> shape x = lead ++ [input] ->
  exists y, BayesianModel.forward m x g = (inr y, advance g (model_draws m))
            /\ shape y = lead ++ [output] /\ wf_tensor y.
Proof.
  intros [h [Hc Ho]] Hx.
  destruct (hidden_pass_draws _ input h x lead g Hc Hx) as [z [Hz Sz]].
  destruct (layer_forward_ok h output _ z lead
              (advance g (fold_right (fun l acc => (layer_draws l + acc)%nat) 0%nat
                            (BayesianModel.layers m))) Ho Sz)
    as [y [Hy [Sy Wy]]].
  exists y. unfold BayesianModel.forward. unfold bind at 1. rewrite Hz, Hy.
  split; [|now split]. f_equal. rewrite advance_advance. unfold model_draws.
  rewrite (fold_draws_shift _ (layer_draws (BayesianModel.output_layer m))).
  now rewrite (layer_draws_wf h output _ Ho).
Qed.

Lemma advance_zero (g : rng_state) : advance g 0 = g.
Proof. destruct g as [f c]. unfold advance. simpl. f_equal. lia. Qed.

Lemma forward_passes_draws (input output : nat) (m : BayesianModel.t)
      (x : tensor) (lead : list nat) (n : nat) (g : rng_state) :
  model_wf input output m -> shape x = lead ++ [input] ->
  exists outs,
    forward_passes m x n g = (inr outs, advance g (n * model_draws m))
    /\ length outs = n
    /\ (forall k, (k < n)%nat ->
          BayesianModel.forward m x (advance g (k * model_draws m))
          = (inr (nth k outs (scalar 0)), advance g (S k * model_draws m))).
Proof.
  intros Hwf Hx. revert g. induction n as [|n IH]; intros g.
  - exists []. simpl. unfold ret. rewrite advance_zero.
    repeat split. intros k Hk. lia.
  - destruct (model_forward_draws input output m x lead g Hwf Hx)
      as [y [Hy _]].
    destruct (IH (advance g (model_draws m))) as [outs [Ho [Lo Ko]]].
    exists (y :: outs). cbn [forward_passes]. unfold bind at 1. rewrite Hy.
    unfold bind at 1. rewrite Ho. unfold ret. rewrite advance_advance.
    split; [reflexivity|]. split; [simpl; now rewrite Lo|].
    intros [|k] Hk.
    + simpl Nat.mul. rewrite advance_zero, Nat.add_0_r. exact Hy.
    + specialize (Ko k ltac:(lia)). rewrite !advance_advance in Ko.
      cbn [nth]. exact Ko.
Qed.

Lemma elbo_loss_state (input output : nat) (m : BayesianModel.t) (x y : tensor)
      (lead : list nat) (n : nat) (g : rng_state) :
  model_wf input output m -> shape x = lead ++ [input] -> (0 < n)%nat ->
  snd (BayesianModel.elbo_loss m x y (Z.of_nat n) g)
  = advance g (n * model_draws m).
Proof.
  intros Hwf Hx Hn.
  destruct (elbo_loss_reduce input output m x y lead n g Hwf Hx Hn)
    as [outs [g' [Hp [_ [_ [_ He]]]]]].
  destruct (forward_passes_draws input output m x lead n g Hwf Hx)
    as [outs' [Hp' _]].
  rewrite He. cbn [snd]. congruence.
Qed.

Lemma elbo_loss_no_samples (input output : nat) (m : BayesianModel.t)
      (x y : tensor) (num_samples : Z) (g : rng_state) :
  model_wf input output m -> (num_samples <= 0)%Z ->
  BayesianModel.elbo_loss m x y num_samples g = (inl RuntimeError, g).
Proof.
  intros Hwf Hn. unfold BayesianModel.elbo_loss.
  rewrite (model_kl_closed input output m Hwf), bind_lift_ok.
  rewrite (range_nonpos num_samples Hn). cbn [for_each]. now rewrite bind_ret_l.
Qed.

Lemma model_forward_mismatch (input output : nat) (m : BayesianModel.t)
      (x : tensor) (g : rng_state) :
  model_wf input output m -> trailing (shape x) <> Some input ->
  fst (BayesianModel.forward m x g) = inl RuntimeError.
Proof.
  intros [h [Hc Ho]] Hx. unfold BayesianModel.forward.
  destruct (BayesianModel.layers m) as [|l ls]; simpl in Hc.
  - subst h. cbn [for_each]. rewrite bind_ret_l.
    now apply (layer_forward_mismatch input output).
  - destruct Hc as [k [Hwf _]].
    pose proof (layer_forward_mismatch input k l x g Hwf Hx) as Hl.
    cbn [for_each]. unfold bind.
    destruct (BnnLayer.forward l x g) as [[e|y] g1]; simpl in Hl;
      [|discriminate].
    now injection Hl as ->.
Qed.

Lemma elbo_loss_input_mismatch (input output : nat) (m : BayesianModel.t)
      (x y : tensor) (n : nat) (g : rng_state) :
  model_wf input output m -> trailing (shape x) <> Some input -> (0 < n)%nat ->
  fst (BayesianModel.elbo_loss m x y (Z.of_nat n) g) = inl RuntimeError.
Proof.
  intros Hwf Hx Hn. unfold BayesianModel.elbo_loss.
  rewrite (model_kl_closed input output m Hwf), bind_lift_ok.
  unfold bind at 1. rewrite for_each_passes, range_length.
  destruct n as [|n]; [lia|]. cbn [forward_passes]. unfold bind at 1.
  pose proof (model_forward_mismatch input output m x g Hwf Hx) as Hf.
  destruct (BayesianModel.forward m x g) as [[e|o] g1]; simpl in Hf;
    [|discriminate].
  now injection Hf as ->.
Qed.

(** ** Sampling shared by a batch; monotonicity of the divergence *)

Lemma layer_forward_mismatch_state (i o : nat) (l : BnnLayer.t) (x : tensor)
      (g : rng_state) :
  BnnLayer.wf i o l -> trailing (shape x) <> Some i ->
  BnnLayer.forward l x g = (inl RuntimeError, advance g (o * i + o)).
Proof.
  intros Hwf Hx.
  pose proof (layer_forward_mismatch i o l x g Hwf Hx) as Hf.
  pose proof (layer_forward_state i o l x g Hwf) as Hs.
  rewrite (layer_draws_wf i o l Hwf) in Hs.
  destruct (BnnLayer.forward l x g) as [r g1]. cbn [fst snd] in Hf, Hs.
  now rewrite Hf, Hs.
Qed.

Lemma layer_rows_share_sample (i o : nat) (l : BnnLayer.t) (x : tensor)
      (lead : list nat) (g : rng_state) (r1 r2 : nat) :
  BnnLayer.wf i o l -> shape x = lead ++ [i] ->
  (r1 < numel lead)%nat -> (r2 < numel lead)%nat ->
  (forall j, (j < i)%nat ->
             nth (r1 * i + j) (data x) 0 = nth (r2 * i + j) (data x) 0) ->
  exists y,
    fst (BnnLayer.forward l x g) = inr y
    /\ forall c, (c < o)%nat ->
                 nth (r1 * o + c) (data y) 0 = nth (r2 * o + c) (data y) 0.
Proof.
  intros Hwf Hx H1 H2 Hrows.
  destruct (layer_forward_elements i o l x lead g Hwf Hx) as [y [Hy [_ [He _]]]].
  exists y. rewrite Hy. split; [reflexivity|]. intros c Hc.
  rewrite (He r1 c H1 Hc), (He r2 c H2 Hc). f_equal.
  apply (f_equal Rsum). apply map_ext_in. intros j Hj. apply in_seq in Hj.
  rewrite Hrows by lia. reflexivity.
Qed.

Lemma reparam_zero_data (dm ds : list R) :
  length dm = length ds ->
  map (fun p => fst (fst p) + exp (snd (fst p)) * snd p)
    (combine (combine dm ds) (repeat 0 (length dm))) = dm.
Proof.
  revert ds. induction dm as [|m dm IH]; intros [|s ds] H; simpl in *;
    try discriminate; [reflexivity|].
  rewrite IH by congruence. f_equal. ring.
Qed.

Lemma draws_zero (g : rng_state) (a n : nat) :
  (forall k, (k < a + n)%nat -> noise g (cursor g + k) = 0) ->
  draws (advance g a) n = repeat 0 n.
Proof.
  intros H. unfold draws, advance. cbn [noise cursor].
  transitivity (map (fun _ : nat => 0) (seq 0 n)).
  - apply map_ext_in. intros k Hk. apply in_seq in Hk.
    rewrite <- Nat.add_assoc. apply H. lia.
  - now rewrite map_const, length_seq.
Qed.

Lemma layer_forward_zero_noise (i o : nat) (l : BnnLayer.t) (x : tensor)
      (g : rng_state) :
  BnnLayer.wf i o l ->
  (forall k, (k < o * i + o)%nat -> noise g (cursor g + k) = 0) ->
  fst (BnnLayer.forward l x g)
  = linear x (BnnLayer.weight_mu l) (BnnLayer.bias_mu l).
Proof.
  intros Hwf Hz. rewrite (layer_forward_eq i o l x g Hwf).
  destruct Hwf as [Hwm Hws Hbm Hbs Dwm Dws Dbm Dbs].
  unfold layer_forward_spec. cbn [fst]. unfold wf_tensor in *.
  assert (Nw : numel (shape (BnnLayer.weight_mu l)) = (o * i)%nat)
    by (rewrite Hwm; simpl; lia).
  assert (Nb : numel (shape (BnnLayer.bias_mu l)) = o)
    by (rewrite Hbm; simpl; lia).
  rewrite <- (advance_zero g) at 1.
  rewrite (draws_zero g 0), (draws_zero g (numel (shape (BnnLayer.weight_mu l))))
    by (intros k Hk; apply Hz; lia).
  unfold reparam. rewrite <- Dwm, <- Dbm.
  rewrite !reparam_zero_data by congruence.
  now destruct (BnnLayer.weight_mu l), (BnnLayer.bias_mu l).
Qed.

Lemma kl_term_antitone (m l1 l2 : R) :
  l1 <= l2 -> 1 / 2 * (m / exp l2) ^ 2 <= 1 / 2 * (m / exp l1) ^ 2.
Proof.
  intros Hl.
  assert (H1 : 0 < exp l1) by apply exp_pos.
  assert (H2 : exp l1 <= exp l2).
  { destruct Hl as [Hl|<-]; [left; now apply exp_increasing|right; reflexivity]. }
  assert (Hi : / exp l2 <= / exp l1) by (apply Rinv_le_contravar; assumption).
  assert (Hp : 0 < / exp l2) by (apply Rinv_0_lt_compat; lra).
  unfold Rdiv.
  replace ((m * / exp l2) ^ 2) with (m ^ 2 * (/ exp l2 * / exp l2)) by ring.
  replace ((m * / exp l1) ^ 2) with (m ^ 2 * (/ exp l1 * / exp l1)) by ring.
  pose proof (pow2_ge_0 m) as Hm. set (M := m ^ 2) in *.
  assert (Hsq : / exp l2 * / exp l2 <= / exp l1 * / exp l1) by nra.
  pose proof (Rmult_le_compat_l M _ _ Hm Hsq). lra.
Qed.

Lemma kl_sum_antitone (dm ds1 ds2 : list R) :
  Forall2 Rle ds1 ds2 ->
  Rsum (map2 (fun m ls => 1 / 2 * (m / exp ls) ^ 2) dm ds2)
  <= Rsum (map2 (fun m ls => 1 / 2 * (m / exp ls) ^ 2) dm ds1).
Proof.
  intros H. unfold Rsum. revert dm.
  induction H as [|l1 l2 ds1 ds2 Hl _ IH]; intros [|m dm];
    cbn [map2 fold_right]; try lra.
  pose proof (kl_term_antitone m l1 l2 Hl). pose proof (IH dm). lra.
Qed.

Lemma layer_kl_antitone (i o : nat) (l1 l2 : BnnLayer.t) :
  BnnLayer.wf i o l1 -> BnnLayer.wf i o l2 ->
  BnnLayer.weight_mu l1 = BnnLayer.weight_mu l2 ->
  BnnLayer.bias_mu l1 = BnnLayer.bias_mu l2 ->
  Forall2 Rle (data (BnnLayer.weight_std l1)) (data (BnnLayer.weight_std l2)) ->
  Forall2 Rle (data (BnnLayer.bias_std l1)) (data (BnnLayer.bias_std l2)) ->
  exists k1 k2,
    BnnLayer.kl_divergence l1 = inr k1
    /\ BnnLayer.kl_divergence l2 = inr k2
    /\ k2 <= k1.
Proof.
  intros W1 W2 Ew Eb Fw Fb.
  exists (layer_kl_closed_form l1), (layer_kl_closed_form l2).
  split; [now apply (layer_kl_closed i o)|].
  split; [now apply (layer_kl_closed i o)|].
  unfold layer_kl_closed_form, kl_closed_form. rewrite <- Ew, <- Eb.
  pose proof (kl_sum_antitone (data (BnnLayer.weight_mu l1)) _ _ Fw).
  pose proof (kl_sum_antitone (data (BnnLayer.bias_mu l1)) _ _ Fb). lra.
Qed.

(** ** Bounds on the loss; networks without hidden layers *)

Lemma ln_sqrt_2PI_pos : 0 < ln (sqrt (2 * PI)).
Proof.
  pose proof PI2_1 as Hpi.
  assert (H1 : 1 < sqrt (2 * PI)).
  { rewrite <- sqrt_1. apply sqrt_lt_1; lra. }
  rewrite <- ln_1. apply ln_increasing; lra.
Qed.

Lemma normal_logpdf_unit_le (mu v : R) :
  normal_logpdf mu 1 v <= - ln (sqrt (2 * PI)).
Proof.
  unfold normal_logpdf. rewrite ln_1.
  pose proof (pow2_ge_0 (v - mu)) as Hs. set (s := (v - mu) ^ 2) in *.
  replace (- s / (2 * 1 ^ 2)) with (- (s / 2)) by (field).
  lra.
Qed.

Lemma log_likelihood_le (l1 l2 : list R) :
  Rsum (map2 (fun v mu => normal_logpdf mu 1 v) l1 l2)
  <= - (INR (length (map2 (fun v mu => normal_logpdf mu 1 v) l1 l2))
        * ln (sqrt (2 * PI))).
Proof.
  unfold Rsum. revert l2. induction l1 as [|v l1 IH]; intros [|mu l2];
    cbn [map2 fold_right length]; try (simpl INR; lra).
  rewrite S_INR. pose proof (normal_logpdf_unit_le mu v). pose proof (IH l2).
  lra.
Qed.

Lemma Rsum_map_nonneg {A} (f : A -> R) (l : list A) :
  (forall a, 0 <= f a) -> 0 <= Rsum (map f l).
Proof.
  intros H. unfold Rsum. induction l as [|a l IH]; simpl; [lra|].
  pose proof (H a). lra.
Qed.

Lemma layer_kl_closed_form_nonneg (l : BnnLayer.t) : 0 <= layer_kl_closed_form l.
Proof.
  unfold layer_kl_closed_form, kl_closed_form.
  pose proof (kl_sum_nonneg (data (BnnLayer.weight_mu l))
                (data (BnnLayer.weight_std l))).
  pose proof (kl_sum_nonneg (data (BnnLayer.bias_mu l))
                (data (BnnLayer.bias_std l))). lra.
Qed.

Lemma model_kl_closed_form_nonneg (m : BayesianModel.t) :
  0 <= model_kl_closed_form m.
Proof.
  unfold model_kl_closed_form.
  pose proof (Rsum_map_nonneg layer_kl_closed_form (BayesianModel.layers m)
                layer_kl_closed_form_nonneg).
  pose proof (layer_kl_closed_form_nonneg (BayesianModel.output_layer m)). lra.
Qed.

Lemma elbo_loss_lower_bound (input output : nat) (m : BayesianModel.t)
      (x y : tensor) (lead bs : list nat) (n : nat) (g : rng_state) :
  model_wf input output m -> shape x = lead ++ [input] -> (0 < n)%nat ->
  broadcast_shapes (shape y) (lead ++ [output]) = Some bs ->
  (0 < hd 0%nat (shape x))%nat ->
  exists v,
    fst (BayesianModel.elbo_loss m x y (Z.of_nat n) g) = inr v
    /\ INR (numel bs) * ln (sqrt (2 * PI)) <= v
    /\ 0 <= v.
Proof.
  intros Hwf Hx Hn Hb HN.
  destruct (elbo_loss_reduce input output m x y lead n g Hwf Hx Hn)
    as [outs [g' [Hp [Lo [Sm [Wm He]]]]]].
  rewrite He. rewrite <- Sm in Hb.
  rewrite (log_prob_unit _ y bs Wm Hb). cbn [rbind fst]. eexists.
  split; [reflexivity|]. unfold tsum. cbn [data].
  pose proof (log_likelihood_le (data (expand y bs))
                (data (expand (elementwise_mean outs) bs))) as Hl.
  rewrite (map2_length_eq _ _ _ (numel bs)) in Hl by apply expand_length.
  pose proof (model_kl_closed_form_nonneg m) as Hk.
  assert (HNr : 0 < INR (hd 0%nat (shape x))) by now apply lt_0_INR.
  assert (Hq : 0 <= model_kl_closed_form m / INR (hd 0%nat (shape x))).
  { apply Rmult_le_pos; [exact Hk|]. left. now apply Rinv_0_lt_compat. }
  pose proof ln_sqrt_2PI_pos as Hc.
  assert (0 <= INR (numel bs) * ln (sqrt (2 * PI))).
  { apply Rmult_le_pos; [apply pos_INR|lra]. }
  split; lra.
Qed.

Lemma model_init_no_hidden (input hidden output num_layers : Z)
      (g0 g1 : rng_state) (m : BayesianModel.t) :
  (num_layers <= 0)%Z -> (0 <= hidden)%Z -> (0 <= output)%Z ->
  BayesianModel.init input hidden output num_layers g0 = (inr m, g1) ->
  BayesianModel.layers m = []
  /\ (forall x g, trailing (shape x) <> Some (Z.to_nat hidden) ->
                  fst (BayesianModel.forward m x g) = inl RuntimeError)
  /\ (forall x n g, shape x = [n; Z.to_nat hidden] ->
                    exists y g', BayesianModel.forward m x g = (inr y, g')
                                 /\ shape y = [n; Z.to_nat output]).
Proof.
  intros Hn Hh Ho Hinit.
  destruct (model_init_ok input hidden output num_layers g0 Hh Ho (or_introl Hn))
    as [m' [g' [H' [Hlen Hwf]]]].
  rewrite Hinit in H'. injection H' as <- <-.
  destruct (Z.leb_spec 1 num_layers) as [Hge|_]; [lia|].
  split; [|split].
  - destruct (BayesianModel.layers m); [reflexivity|]. simpl in Hlen. lia.
  - intros x g Hx. now apply (model_forward_mismatch _ _ m x g Hwf).
  - intros x n g Hx.
    destruct (model_forward_ok _ _ m x [n] g Hwf Hx) as [y [g2 [Hy [Sy _]]]].
    now exists y, g2.
Qed.

Lemma kl_sum_const_sigma (dm ds : list R) (c : R) :
  length dm = length ds -> Forall (eq c) ds ->
  Rsum (map2 (fun m ls => 1 / 2 * (m / exp ls) ^ 2) dm ds)
  = Rsum (map (fun m => 1 / 2 * (m / exp c) ^ 2) dm).
Proof.
  intros Hlen H. unfold Rsum. revert dm Hlen.
  induction H as [|s ds Hs _ IH]; intros [|m dm] Hlen;
    cbn [map2 map fold_right length] in *; try discriminate; try reflexivity.
  subst s. rewrite IH by congruence. reflexivity.
Qed.

Lemma fresh_layer_kl (i o : Z) (g g' : rng_state) (l : BnnLayer.t) :
  (0 < i)%Z -> (0 < o)%Z -> BnnLayer.init i o g = (inr l, g') ->
  BnnLayer.kl_divergence l
  = inr (Rsum (map (fun e => 1 / 2 * ((0 + kaiming_std (Z.to_nat i) * e)
                                       / exp (-5)) ^ 2)
                 (draws g (Z.to_nat o * Z.to_nat i)))).
Proof.
  intros Hi Ho Hinit.
  destruct (layer_init_ok i o g ltac:(lia) ltac:(lia))
    as [l' [g2 [H' [W [_ [Fw [Fb [Fz Hmu]]]]]]]].
  rewrite Hinit in H'. injection H' as <- <-.
  destruct (Hmu Hi Ho) as [Hd _].
  rewrite (layer_kl_closed _ _ l W).
  destruct W as [Hwm Hws Hbm Hbs Dwm Dws Dbm Dbs]. unfold wf_tensor in *.
  unfold layer_kl_closed_form, kl_closed_form.
  rewrite (kl_sum_zero _ _ Fz), Rplus_0_r.
  rewrite (kl_sum_const_sigma _ _ (-5)) by (congruence || assumption).
  now rewrite Hd, map_map.
Qed.

(** ** A 1-d target *)








(** ** Further properties of the code *)

Lemma example_output_wide_wf : BnnLayer.wf 1 1 example_output_wide.
Proof. constructor; reflexivity. Defined.

(** X1. One forward pass of a network reads exactly one draw per weight and
    per bias of its layers: the generator is advanced by that count. *)
Theorem forward_reads_one_draw_per_parameter (input output : nat)
        (m : BayesianModel.t) (x : tensor) (lead : list nat) (g : rng_state) :
  model_wf input output m -> shape x = lead ++ [input] ->
  exists y, BayesianModel.forward m x g = (inr y, advance g (model_draws m))
            /\ shape y = lead ++ [output].
Proof.
  intros Hwf Hx.
  destruct (model_forward_draws input output m x lead g Hwf Hx) as [y [H [S _]]].
  now exists y.
Qed.

Lemma forward_reads_one_draw_per_parameter_witness :
  exists y, BayesianModel.forward example_model example_x (rng_const 0)
            = (inr y, advance (rng_const 0) 5)
            /\ shape y = [2; 1]%nat.
Proof.
  exact (forward_reads_one_draw_per_parameter 2 1 example_model example_x
           [2%nat] (rng_const 0) example_model_wf eq_refl).
Defined.



(** X3. A target that does not broadcast against the prediction is
    rejected only after all passes have run: the error comes with the
    generator advanced by [num_samples] windows. *)
Theorem elbo_rejects_target_after_sampling (input output : nat)
        (m : BayesianModel.t) (x y : tensor) (lead : list nat) (n : nat)
        (g : rng_state) :
  model_wf input output m -> shape x = lead ++ [input] -> (0 < n)%nat ->
  broadcastable (shape y) (lead ++ [output]) = false ->
  BayesianModel.elbo_loss m x y (Z.of_nat n) g
  = (inl ValueError, advance g (n * model_draws m)).
Proof.
  intros Hwf Hx Hn Hb.
  pose proof (elbo_loss_not_broadcastable input output m x y lead n g
                Hwf Hx Hn Hb) as Hf.
  pose proof (elbo_loss_state input output m x y lead n g Hwf Hx Hn) as Hs.
  destruct (BayesianModel.elbo_loss m x y (Z.of_nat n) g) as [r g1].
  cbn [fst snd] in Hf, Hs. now rewrite Hf, Hs.
Qed.

Lemma elbo_rejects_target_after_sampling_witness :
  BayesianModel.elbo_loss example_model example_x example_y_long 3 (rng_const 0)
  = (inl ValueError, advance (rng_const 0) (3 * model_draws example_model)).
Proof.
  exact (elbo_rejects_target_after_sampling 2 1 example_model example_x
           example_y_long [2%nat] 3 (rng_const 0) example_model_wf eq_refl
           (Nat.lt_0_succ 2) eq_refl).
Defined.

(** X4. With [num_samples <= 0] the list of outputs stays empty and
    stacking it fails: [elbo_loss] raises a runtime error and reads no
    draw. *)
Theorem elbo_without_samples_fails (input output : nat) (m : BayesianModel.t)
        (x y : tensor) (num_samples : Z) (g : rng_state) :
  model_wf input output m -> (num_samples <= 0)%Z ->
  BayesianModel.elbo_loss m x y num_samples g = (inl RuntimeError, g).
Proof. apply elbo_loss_no_samples. Qed.

Lemma elbo_without_samples_fails_witness :
  BayesianModel.elbo_loss example_model example_x example_y 0 (rng_const 0)
  = (inl RuntimeError, rng_const 0).
Proof.
  apply (elbo_without_samples_fails 2 1); [exact example_model_wf|].
  discriminate.
Defined.

(** X5. A network rejects an input whose trailing dimension is not its input
    width: [forward] fails in the first layer, and so does [elbo_loss]. *)
Theorem network_rejects_wrong_width (input output : nat) (m : BayesianModel.t)
        (x : tensor) (g : rng_state) :
  model_wf input output m -> trailing (shape x) <> Some input ->
  fst (BayesianModel.forward m x g) = inl RuntimeError
  /\ forall y n, (0 < n)%nat ->
       fst (BayesianModel.elbo_loss m x y (Z.of_nat n) g) = inl RuntimeError.
Proof.
  intros Hwf Hx. split.
  - now apply (model_forward_mismatch input output).
  - intros y n Hn. now apply (elbo_loss_input_mismatch input output).
Qed.

Lemma network_rejects_wrong_width_witness :
  fst (BayesianModel.forward example_model example_x_wide (rng_const 0))
  = inl RuntimeError
  /\ fst (BayesianModel.elbo_loss example_model example_x_wide example_y 5
            (rng_const 0)) = inl RuntimeError.
Proof.
  destruct (network_rejects_wrong_width 2 1 example_model example_x_wide
              (rng_const 0) example_model_wf ltac:(discriminate)) as [H1 H2].
  split; [exact H1|]. exact (H2 example_y 5%nat (Nat.lt_0_succ 4)).
Defined.

(** X6. A layer samples its weight and bias before the affine transform:
    a forward call that fails on the input's width has still consumed
    [out * in + out] draws. *)
Theorem failed_forward_consumes_draws (i o : nat) (l : BnnLayer.t) (x : tensor)
        (g : rng_state) :
  BnnLayer.wf i o l -> trailing (shape x) <> Some i ->
  BnnLayer.forward l x g = (inl RuntimeError, advance g (o * i + o)).
Proof. apply layer_forward_mismatch_state. Qed.

Lemma failed_forward_consumes_draws_witness :
  BnnLayer.forward example_hidden example_x_wide (rng_const 0)
  = (inl RuntimeError, advance (rng_const 0) (1 * 2 + 1)).
Proof.
  apply failed_forward_consumes_draws; [exact example_hidden_wf|discriminate].
Defined.

(** X7. One weight and one bias sample serve the whole batch: rows of the
    input that are equal give rows of the output that are equal. *)
Theorem batch_rows_share_one_sample (i o : nat) (l : BnnLayer.t) (x : tensor)
        (lead : list nat) (g : rng_state) (r1 r2 : nat) :
  BnnLayer.wf i o l -> shape x = lead ++ [i] ->
  (r1 < numel lead)%nat -> (r2 < numel lead)%nat ->
  (forall j, (j < i)%nat ->
             nth (r1 * i + j) (data x) 0 = nth (r2 * i + j) (data x) 0) ->
  exists y,
    fst (BnnLayer.forward l x g) = inr y
    /\ forall c, (c < o)%nat ->
                 nth (r1 * o + c) (data y) 0 = nth (r2 * o + c) (data y) 0.
Proof. apply layer_rows_share_sample. Qed.

Lemma batch_rows_share_one_sample_witness :
  exists y,
    fst (BnnLayer.forward example_hidden example_x_same (rng_const 1)) = inr y
    /\ forall c, (c < 1)%nat ->
                 nth (0 * 1 + c) (data y) 0 = nth (1 * 1 + c) (data y) 0.
Proof.
  apply (batch_rows_share_one_sample 2 1 example_hidden example_x_same [2%nat]
           (rng_const 1) 0 1 example_hidden_wf eq_refl).
  - apply Nat.lt_0_succ.
  - apply Nat.lt_succ_diag_r.
  - intros [|[|j]] Hj; [reflexivity|reflexivity|exfalso; lia].
Defined.

(** X8. When the draws read by a call are all zero the layer is the affine
    map at the posterior means, [F.linear(x, weight_mu, bias_mu)], error
    cases included. *)
Theorem zero_noise_forward_is_mean_layer (i o : nat) (l : BnnLayer.t)
        (x : tensor) (g : rng_state) :
  BnnLayer.wf i o l ->
  (forall k, (k < o * i + o)%nat -> noise g (cursor g + k) = 0) ->
  fst (BnnLayer.forward l x g)
  = linear x (BnnLayer.weight_mu l) (BnnLayer.bias_mu l).
Proof. apply layer_forward_zero_noise. Qed.

Lemma zero_noise_forward_is_mean_layer_witness :
  fst (BnnLayer.forward example_hidden example_x (rng_const 0))
  = linear example_x (BnnLayer.weight_mu example_hidden)
      (BnnLayer.bias_mu example_hidden).
Proof.
  apply (zero_noise_forward_is_mean_layer 2 1); [exact example_hidden_wf|].
  intros k Hk. reflexivity.
Defined.

(** X9. With the means fixed, a layer's divergence does not increase when
    any [log_sigma] is raised: the term only rewards larger standard
    deviations. *)
Theorem kl_decreases_with_log_sigma (i o : nat) (l1 l2 : BnnLayer.t) :
  BnnLayer.wf i o l1 -> BnnLayer.wf i o l2 ->
  BnnLayer.weight_mu l1 = BnnLayer.weight_mu l2 ->
  BnnLayer.bias_mu l1 = BnnLayer.bias_mu l2 ->
  Forall2 Rle (data (BnnLayer.weight_std l1)) (data (BnnLayer.weight_std l2)) ->
  Forall2 Rle (data (BnnLayer.bias_std l1)) (data (BnnLayer.bias_std l2)) ->
  exists k1 k2,
    BnnLayer.kl_divergence l1 = inr k1
    /\ BnnLayer.kl_divergence l2 = inr k2
    /\ k2 <= k1.
Proof. apply layer_kl_antitone. Qed.

Lemma kl_decreases_with_log_sigma_witness :
  exists k1 k2,
    BnnLayer.kl_divergence example_output = inr k1
    /\ BnnLayer.kl_divergence example_output_wide = inr k2
    /\ k2 <= k1.
Proof.
  apply (kl_decreases_with_log_sigma 1 1);
    [exact example_output_wf|exact example_output_wide_wf
    |reflexivity|reflexivity| |].
  - constructor; [|constructor]. left. exact Rlt_0_1.
  - constructor; [|constructor]. left. exact Rlt_0_1.
Defined.

(** X10. On a batch with at least one row the loss is bounded below by
    [ln (sqrt (2 pi))] per element of the log-likelihood; in particular it
    is never negative. *)
Theorem elbo_loss_bounded_below (input output : nat) (m : BayesianModel.t)
        (x y : tensor) (lead bs : list nat) (n : nat) (g : rng_state) :
  model_wf input output m -> shape x = lead ++ [input] -> (0 < n)%nat ->
  broadcast_shapes (shape y) (lead ++ [output]) = Some bs ->
  (0 < hd 0%nat (shape x))%nat ->
  exists v,
    fst (BayesianModel.elbo_loss m x y (Z.of_nat n) g) = inr v
    /\ INR (numel bs) * ln (sqrt (2 * PI)) <= v
    /\ 0 <= v.
Proof. apply elbo_loss_lower_bound. Qed.

Lemma elbo_loss_bounded_below_witness :
  exists v,
    fst (BayesianModel.elbo_loss example_model example_x example_y 5
           (rng_const 0)) = inr v
    /\ INR (numel [2; 1]%nat) * ln (sqrt (2 * PI)) <= v
    /\ 0 <= v.
Proof.
  exact (elbo_loss_bounded_below 2 1 example_model example_x example_y
           [2%nat] [2; 1]%nat 5 (rng_const 0) example_model_wf eq_refl
           (Nat.lt_0_succ 4) eq_refl (Nat.lt_0_succ 1)).
Defined.

(** X11. A network built with [num_layers <= 0] has no hidden layer and
    never looks at [input_size]: its forward pass expects inputs of width
    [hidden_size] and rejects every other width. *)
Theorem network_without_hidden_layers (input hidden output num_layers : Z)
        (g0 : rng_state) :
  (num_layers <= 0)%Z -> (0 <= hidden)%Z -> (0 <= output)%Z ->
  exists m g1,
    BayesianModel.init input hidden output num_layers g0 = (inr m, g1)
    /\ BayesianModel.layers m = []
    /\ (forall x g, trailing (shape x) <> Some (Z.to_nat hidden) ->
                    fst (BayesianModel.forward m x g) = inl RuntimeError)
    /\ (forall x n g, shape x = [n; Z.to_nat hidden] ->
                      exists y g', BayesianModel.forward m x g = (inr y, g')
                                   /\ shape y = [n; Z.to_nat output]).
Proof.
  intros Hn Hh Ho.
  destruct (model_init_ok input hidden output num_layers g0 Hh Ho (or_introl Hn))
    as [m [g1 [Hinit _]]].
  exists m, g1. split; [exact Hinit|].
  exact (model_init_no_hidden input hidden output num_layers g0 g1 m
           Hn Hh Ho Hinit).
Qed.

Lemma network_without_hidden_layers_witness :
  exists m g1,
    BayesianModel.init 4 8 1 0 (rng_const 0) = (inr m, g1)
    /\ BayesianModel.layers m = []
    /\ fst (BayesianModel.forward m (mkTensor [1; 4]%nat [1; 0; 0; 0])
              (rng_const 0)) = inl RuntimeError.
Proof.
  destruct (network_without_hidden_layers 4 8 1 0 (rng_const 0)
              ltac:(discriminate) ltac:(discriminate) ltac:(discriminate))
    as [m [g1 [H1 [H2 [H3 _]]]]].
  exists m, g1. split; [exact H1|]. split; [exact H2|].
  apply H3. discriminate.
Defined.

(** X12. Right after construction the biases contribute nothing to a
    layer's divergence, and every weight, a draw [e] scaled by the fan-in
    factor, contributes [0.5 * (factor * e / exp(-5))^2]. *)
Theorem fresh_layer_divergence (i o : Z) (g : rng_state) :
  (0 < i)%Z -> (0 < o)%Z ->
  exists l g',
    BnnLayer.init i o g = (inr l, g')
    /\ BnnLayer.kl_divergence l
       = inr (Rsum (map (fun e => 1 / 2 * ((0 + kaiming_std (Z.to_nat i) * e)
                                            / exp (-5)) ^ 2)
                      (draws g (Z.to_nat o * Z.to_nat i)))).
Proof.
  intros Hi Ho.
  destruct (layer_init_ok i o g ltac:(lia) ltac:(lia)) as [l [g' [Hinit _]]].
  exists l, g'. split; [exact Hinit|].
  exact (fresh_layer_kl i o g g' l Hi Ho Hinit).
Qed.

Lemma fresh_layer_divergence_witness :
  exists l g',
    BnnLayer.init 2 1 (rng_const 1) = (inr l, g')
    /\ BnnLayer.kl_divergence l
       = inr (Rsum (map (fun e => 1 / 2 * ((0 + kaiming_std (Z.to_nat 2) * e)
                                            / exp (-5)) ^ 2)
                      (draws (rng_const 1) (Z.to_nat 1 * Z.to_nat 2)))).
Proof.
  exact (fresh_layer_divergence 2 1 (rng_const 1) eq_refl eq_refl).
Defined.



(** X14. End to end: a network built from non-negative sizes with at least
    one hidden layer returns a loss for every batch [(N, input_size)], every
    target [(N, output_size)] and every positive number of samples. *)
Theorem constructed_network_returns_loss (input hidden output num_layers : Z)
        (g0 : rng_state) :
  (0 <= input)%Z -> (0 <= hidden)%Z -> (0 <= output)%Z -> (1 <= num_layers)%Z ->
  exists m g1,
    BayesianModel.init input hidden output num_layers g0 = (inr m, g1)
    /\ length (BayesianModel.layers m) = Z.to_nat num_layers
    /\ forall x y N n g,
         shape x = [N; Z.to_nat input] -> shape y = [N; Z.to_nat output] ->
         (0 < n)%nat ->
         exists v g',
           BayesianModel.elbo_loss m x y (Z.of_nat n) g = (inr v, g').
Proof.
  intros Hi Hh Ho Hn.
  destruct (model_init_ok input hidden output num_layers g0 Hh Ho (or_intror Hi))
    as [m [g1 [Hinit [Hlen Hwf]]]].
  destruct (Z.leb_spec 1 num_layers) as [_|Hlt]; [|lia].
  exists m, g1. split; [exact Hinit|]. split; [exact Hlen|].
  intros x y N n g Hx Hy Hpos.
  assert (Hb : broadcast_shapes (shape y) ([N] ++ [Z.to_nat output])
               = Some [N; Z.to_nat output]).
  { rewrite Hy. apply broadcast_shapes_same. }
  destruct (elbo_loss_ok _ _ m x y [N] _ n g Hwf Hx Hpos Hb)
    as [K [outs [g' [_ [_ [_ He]]]]]].
  eexists. exists g'. exact He.
Qed.

Lemma constructed_network_returns_loss_witness :
  exists m g1,
    BayesianModel.init 2 3 1 2 (rng_const 0) = (inr m, g1)
    /\ length (BayesianModel.layers m) = Z.to_nat 2
    /\ exists v g',
         BayesianModel.elbo_loss m example_x example_y 5 (rng_const 0)
         = (inr v, g').
Proof.
  destruct (constructed_network_returns_loss 2 3 1 2 (rng_const 0)
              ltac:(discriminate) ltac:(discriminate) ltac:(discriminate)
              ltac:(discriminate))
    as [m [g1 [H1 [H2 H3]]]].
  exists m, g1. split; [exact H1|]. split; [exact H2|].
  exact (H3 example_x example_y 2%nat 5%nat (rng_const 0) eq_refl eq_refl
           (Nat.lt_0_succ 4)).
Defined.
